(** * gitlab-groups-filling-with-users: a shallow embedding of [app.py]

    The script reads its configuration from the process environment through
    the helper class [env], logs in to GitLab, validates a list of users and
    then walks over every group, adding the users that are not yet members.

    The embedding follows the source function by function.  Python values
    that flow through the untyped helper ([None], [bool], [int], [str]) are
    an inductive type; [os.environ] is a finite map from strings to strings;
    the remote GitLab instance is a record of answers together with the
    table of group memberships, the only remote state the script writes.
    Every remote call and every log line is recorded, in program order, in a
    trace. *)

From Stdlib Require Import ZArith List Ascii String Lia Bool OrderedTypeEx Sorted.
From stdpp Require Import base option list strings gmap pretty.

Local Open Scope string_scope.
Local Open Scope Z_scope.
Local Open Scope list_scope.

(** ** Python values *)

(** The values that reach [env]: the strings of [os.environ], and the
    defaults the script passes ([None], [True], the integer 30). *)
Inductive pyval : Type :=
| PyNone
| PyBool (b : bool)
| PyInt (z : Z)
| PyStr (s : string).

Definition pyval_eq_dec (a b : pyval) : {a = b} + {a ≠ b}.
Proof.
  decide equality;
    [ apply Bool.bool_dec | apply Z.eq_dec | apply String.string_dec ].
Defined.

#[global] Instance pyval_eq_decision : EqDecision pyval := pyval_eq_dec.

(** [x is None] and [x is not None]. *)
Definition is_none (v : pyval) : bool :=
  match v with PyNone => true | _ => false end.

Definition is_not_none (v : pyval) : bool := negb (is_none v).

(** Truth value testing, as used by [not x] and [x and y]. *)
Definition truthy (v : pyval) : bool :=
  match v with
  | PyNone => false
  | PyBool b => b
  | PyInt z => negb (z =? 0)%Z
  | PyStr s => negb (String.eqb s EmptyString)
  end.

(** [a == b]: numbers compare by value ([True == 1]), a string never equals
    a number. *)
Definition int_of_bool (b : bool) : Z := if b then 1 else 0.

Definition py_eq (a b : pyval) : bool :=
  match a, b with
  | PyNone, PyNone => true
  | PyBool x, PyBool y => Bool.eqb x y
  | PyInt x, PyInt y => (x =? y)%Z
  | PyBool x, PyInt y => (int_of_bool x =? y)%Z
  | PyInt x, PyBool y => (x =? int_of_bool y)%Z
  | PyStr x, PyStr y => String.eqb x y
  | _, _ => false
  end.

(** [x in l] for a list of strings [l]. *)
Definition py_in (v : pyval) (l : list string) : bool :=
  existsb (fun s => py_eq v (PyStr s)) l.

(** [str(x)]. *)
Definition py_str (v : pyval) : string :=
  match v with
  | PyNone => "None"
  | PyBool true => "True"
  | PyBool false => "False"
  | PyInt z => pretty z
  | PyStr s => s
  end.

(** ** Strings *)

(** [str.lower] on the ASCII letters.  A character outside ASCII lowers to
    characters outside ASCII or to one of [k], [i]; none of them occurs in
    the words [boolean] looks for, so membership in that tuple is decided by
    the ASCII letters alone. *)
Definition lower_ascii (c : ascii) : ascii :=
  let n := nat_of_ascii c in
  if ((65 <=? n)%nat && (n <=? 90)%nat)%bool then ascii_of_nat (n + 32) else c.

Fixpoint lower (s : string) : string :=
  match s with
  | EmptyString => EmptyString
  | String c s' => String (lower_ascii c) (lower s')
  end.

(** [s.split(sep)] for a non-empty separator: cut at every occurrence of
    [sep], scanning from the left, and keep empty fields.  [skip] counts the
    characters of an occurrence still to be dropped, [acc] is the field read
    so far, reversed. *)
Fixpoint split_from (sep : string) (skip : nat) (acc : list ascii) (s : string)
  : list string :=
  match s with
  | EmptyString => [string_of_list_ascii (rev acc)]
  | String c s' =>
      match skip with
      | S k => split_from sep k acc s'
      | O =>
          if String.prefix sep s
          then string_of_list_ascii (rev acc)
                 :: split_from sep (String.length sep - 1)%nat [] s'
          else split_from sep O (c :: acc) s'
      end
  end.

Definition split (sep s : string) : list string := split_from sep O [] s.

(** [sorted(set(l))] on strings: the distinct elements in increasing order.
    Python orders strings by code point, which on UTF-8 bytes is the
    byte-wise order of [String.compare]. *)
Fixpoint insert_sorted (x : string) (l : list string) : list string :=
  match l with
  | [] => [x]
  | y :: l' =>
      match String.compare x y with
      | Lt => x :: l
      | Eq => l
      | Gt => y :: insert_sorted x l'
      end
  end.

Definition sorted_set (l : list string) : list string :=
  foldr insert_sorted [] l.

(** ** Outcomes of a computation *)

Inductive exn : Type :=
| ValueError
| AttributeError
| TypeError
| RemoteError.

(** A call returns, leaves through [sys.exit()], or dies with an exception
    that nothing catches. *)
Inductive outcome (A : Type) : Type :=
| Return (a : A)
| SysExit
| Uncaught (e : exn).

Arguments Return {A} a.
Arguments SysExit {A}.
Arguments Uncaught {A} e.

Definition returned {A} (o : outcome A) : bool :=
  match o with Return _ => true | _ => false end.

(** ** The class [env] *)

Module env.

Record t : Type := mk {
  key : string;
  alt_key : option string;
  default : pyval;
  alt_value : pyval;
  value : pyval
}.

(** [os.environ.get(k, d)]. *)
Definition environ_get (environ : gmap string string) (k : string) (d : pyval)
  : pyval :=
  match environ !! k with
  | Some s => PyStr s
  | None => d
  end.

(** [__init__(self, key, alt_key=None, default=None)]. *)
Definition init (environ : gmap string string)
    (key : string) (alt_key : option string) (default : pyval) : t :=
  let alt_value :=
    match alt_key with
    | Some a => environ_get environ a PyNone
    | None => PyNone
    end in
  {| key := key;
     alt_key := alt_key;
     default := default;
     alt_value := alt_value;
     value := environ_get environ key
                (if is_not_none alt_value then alt_value else default) |}.

(** [boolean(self)]. *)
Definition boolean (e : t) : pyval :=
  if negb (truthy (value e)) then default e
  else PyBool (bool_decide
                 (lower (py_str (value e))
                    ∈ ["true"; "t"; "yes"; "y"; "on"; "1"])).

Section parsing.
(** Python's built-in [int] applied to a string: [None] stands for the
    [ValueError] of a malformed literal. *)
Variable int_of_str : string -> option Z.

Definition py_int (v : pyval) : outcome pyval :=
  match v with
  | PyNone => Uncaught TypeError
  | PyBool b => Return (PyInt (int_of_bool b))
  | PyInt z => Return (PyInt z)
  | PyStr s =>
      match int_of_str s with
      | Some z => Return (PyInt z)
      | None => Uncaught ValueError
      end
  end.

(** [int(self)]. *)
Definition int (e : t) : outcome pyval :=
  if negb (truthy (value e)) then Return (default e)
  else py_int (value e).
End parsing.

(** [list(self, separator=',')]. *)
Definition list (e : t) (separator : string) : outcome (Datatypes.list string) :=
  if negb (truthy (value e)) then Return []
  else match value e with
       | PyStr s =>
           if String.eqb separator EmptyString then Uncaught ValueError
           else Return (split separator s)
       | _ => Uncaught AttributeError
       end.

End env.

(** ** The remote GitLab instance *)

Module group.
(** A group as [gl.groups.get] returns it: [parent_id] is [None] for a
    top-level group, [projects] is what [group.projects.list()] finds. *)
Record t : Type := mk {
  id : pyval;
  full_path : string;
  parent_id : pyval;
  projects : Datatypes.list string
}.
End group.

Inductive auth_answer : Type :=
| AuthOk
| AuthenticationError (error_message : string)
| AuthOtherException.

(** The answer to a [get]: the object, a [GitlabGetError] with its
    [response_code], or any other exception. *)
Inductive get_answer (A : Type) : Type :=
| Found (a : A)
| GetError (response_code : Z)
| OtherException.

Arguments Found {A} a.
Arguments GetError {A} response_code.
Arguments OtherException {A}.

(** One row of the membership table of the instance. *)
Record membership : Type := {
  m_group : pyval;
  m_user : string;
  m_level : Z
}.

(** What the instance answers.  [members_fault] is a failure of a
    membership lookup that does not come from the table; [create_fails]
    makes [members.create] raise.  [groups_list_fails], [groups_get_fails]
    and [projects_list_fails] make [gl.groups.list], [gl.groups.get] and
    [group.projects.list] raise: the script has no handler around these
    three calls, so the exception ends the run. *)
Record gitlab : Type := {
  auth : pyval -> pyval -> auth_answer;
  users_get : string -> get_answer string;
  groups_list : list group.t;
  members_fault : pyval -> string -> option (get_answer unit);
  create_fails : pyval -> string -> bool;
  groups_list_fails : bool;
  groups_get_fails : pyval -> bool;
  projects_list_fails : pyval -> bool
}.

Definition has_member (tbl : list membership) (g : pyval) (user : string) : bool :=
  existsb (fun m => bool_decide (m_group m = g) && String.eqb (m_user m) user) tbl.

(** [group.members.get(user)] against the table [tbl]. *)
Definition member_lookup (gl : gitlab) (tbl : list membership)
    (g : pyval) (user : string) : get_answer unit :=
  match members_fault gl g user with
  | Some a => a
  | None => if has_member tbl g user then Found tt else GetError 404
  end.

(** ** Traces *)

Inductive call : Type :=
| Auth (url token : pyval)
| UsersGet (user : string)
| GroupsList
| GroupsGet (g : pyval)
| ProjectsList (g : pyval)
| MembersGet (g : pyval) (user : string)
| MembersCreate (g : pyval) (user : string) (access_level : Z).

Inductive level : Type := DEBUG | INFO | ERROR | FATAL.

(** One constructor for each logging statement of the source. *)
Inductive message : Type :=
| RequiredNotSet (key : string)
| CantLogin (url : pyval) (error_message : string)
| CantConnect (url : pyval)
| LoggedIn (url : pyval)
| UserFound (username : string)
| UserIgnored (val : string)
| ErrorCheckUser (val : string)
| UnsupportedAccessLevel (access_level : pyval)
| AccessLevelSet (name : string)
| GroupSkippedByRule (full_path : string)
| NestedGroupSkipped (full_path : string)
| BlankGroupSkipped (full_path : string)
| WorkWithGroup (full_path : string)
| AddedUser (user full_path : string)
| ErrorGetUser (user full_path : string)
| ErrorInGroup (full_path : string)
| Updated (success_u success_g total_g : nat)
| Done.

Inductive event : Type :=
| Call (c : call)
| Log (l : level) (m : message).

(** ** The monad of the script

    A computation reads and writes the membership table and appends to the
    trace; [sys.exit()] and an uncaught exception cut it short. *)
Definition M (A : Type) : Type :=
  list membership -> outcome A * list membership * list event.

Definition ret {A} (a : A) : M A := fun tbl => (Return a, tbl, []).

Definition bind {A B} (m : M A) (k : A -> M B) : M B :=
  fun tbl =>
    match m tbl with
    | (Return a, tbl', tr) =>
        let '(o, tbl'', tr') := k a tbl' in (o, tbl'', tr ++ tr')
    | (SysExit, tbl', tr) => (SysExit, tbl', tr)
    | (Uncaught e, tbl', tr) => (Uncaught e, tbl', tr)
    end.

Notation "'let*' x ':=' m 'in' k" := (bind m (fun x => k))
  (at level 10, x name, m at level 100, k at level 200).
Notation "m '>>' k" := (bind m (fun _ => k))
  (at level 100, k at level 200, right associativity).

Definition emit (e : event) : M unit := fun tbl => (Return tt, tbl, [e]).
Definition logging (l : level) (m : message) : M unit := emit (Log l m).
Definition sys_exit {A} : M A := fun tbl => (SysExit, tbl, []).
Definition lift {A} (o : outcome A) : M A := fun tbl => (o, tbl, []).

(** A remote call that raises when [b] holds, outside every [try]. *)
Definition fails (b : bool) : M unit :=
  if b then lift (Uncaught RemoteError) else ret tt.

(** [for x in l: s = body x s]. *)
Fixpoint for_each {A S} (l : list A) (body : A -> S -> M S) (s : S) : M S :=
  match l with
  | [] => ret s
  | x :: l' => let* s' := body x s in for_each l' body s'
  end.

(** [required(self)]. *)
Definition required (e : env.t) : M pyval :=
  if is_not_none (env.value e) then ret (env.value e)
  else logging FATAL (RequiredNotSet (env.key e)) >> sys_exit.

(** ** [login_gitlab] *)

Definition login_gitlab (gl : gitlab) (gitlab_url gitlab_token : pyval) : M unit :=
  emit (Call (Auth gitlab_url gitlab_token)) >>
  match auth gl gitlab_url gitlab_token with
  | AuthenticationError error_message =>
      logging FATAL (CantLogin gitlab_url error_message) >> sys_exit
  | AuthOtherException =>
      logging FATAL (CantConnect gitlab_url) >> sys_exit
  | AuthOk => logging INFO (LoggedIn gitlab_url)
  end.

(** ** Checking the users

    [for i, val in enumerate(users)] reads [users[i]] afresh at every turn
    and stops when [i] has reached the current length; [users.pop(i)] on a
    404 shortens the very list the loop walks over.  Every turn moves [i]
    one step towards the length, so [length users] turns are enough: the
    loop is written with that bound as fuel and answers [None] only if the
    fuel runs out, which [check_users_from_total] excludes. *)
Fixpoint check_users_from (gl : gitlab) (fuel i : nat) (users : list string)
  : option (outcome (list string) * list event) :=
  match users !! i with
  | None => Some (Return users, [])
  | Some val =>
      match fuel with
      | O => None
      | S fuel' =>
          match users_get gl val with
          | Found username =>
              '(o, tr) ← check_users_from gl fuel' (S i) users;
              Some (o, Call (UsersGet val) :: Log INFO (UserFound username) :: tr)
          | GetError response_code =>
              if response_code =? 404
              then '(o, tr) ← check_users_from gl fuel' (S i) (delete i users);
                   Some (o, Call (UsersGet val) :: Log ERROR (UserIgnored val) :: tr)
              else Some (SysExit,
                         [Call (UsersGet val); Log FATAL (ErrorCheckUser val)])
          | OtherException =>
              Some (Uncaught RemoteError, [Call (UsersGet val)])
          end
      end
  end.

Definition check_users (gl : gitlab) (users : list string) : M (list string) :=
  fun tbl =>
    match check_users_from gl (length users) 0 users with
    | Some (o, tr) => (o, tbl, tr)
    | None => (Return users, tbl, [])
    end.

(** ** Access levels *)

(** Modelled from the spec: [gitlab.const.DEVELOPER_ACCESS], a constant of
    the client library that is not part of the repository; the spec gives
    Developer the code 30. *)
Definition DEVELOPER_ACCESS : Z := 30.

Definition levels : list (Z * string) :=
  [ (0, "None"); (10, "Guest"); (20, "Reporter"); (30, "Developer");
    (40, "Mainteiner"); (50, "Owner") ].

(** [access_level in levels] and [levels[access_level]]. *)
Definition in_levels (access_level : pyval) : bool :=
  existsb (fun kv => py_eq access_level (PyInt (fst kv))) levels.

Definition level_name (access_level : pyval) : string :=
  match List.find (fun kv => py_eq access_level (PyInt (fst kv))) levels with
  | Some kv => snd kv
  | None => EmptyString
  end.

(** ** The loop over the groups *)

Record counters : Type := {
  success_u : nat;
  success_g : nat;
  total_g : nat
}.

Definition members_get (gl : gitlab) (group : group.t) (user : string)
  : M (get_answer unit) :=
  fun tbl => (Return (member_lookup gl tbl (group.id group) user), tbl,
              [Call (MembersGet (group.id group) user)]).

Definition members_create (gl : gitlab) (group : group.t) (user : string)
    (access_level : Z) : M unit :=
  fun tbl =>
    if create_fails gl (group.id group) user
    then (Uncaught RemoteError, tbl,
          [Call (MembersCreate (group.id group) user access_level)])
    else (Return tt,
          tbl ++ [{| m_group := group.id group; m_user := user;
                     m_level := access_level |}],
          [Call (MembersCreate (group.id group) user access_level)]).

(** The body of [for user in users], on the counter [success_u]. *)
Definition user_body (gl : gitlab) (group : group.t) (user : string)
    (success_u : nat) : M nat :=
  let* r := members_get gl group user in
  match r with
  | Found _ => ret success_u
  | GetError response_code =>
      if response_code =? 404
      then members_create gl group user DEVELOPER_ACCESS >>
           logging INFO (AddedUser user (group.full_path group)) >>
           ret (S success_u)
      else logging ERROR (ErrorGetUser user (group.full_path group)) >>
           ret success_u
  | OtherException =>
      logging FATAL (ErrorInGroup (group.full_path group)) >> sys_exit
  end.

(** [group.projects.list()], called only when [skip_blank] is true:
    [and] does not evaluate its right operand otherwise. *)
Definition blank_group (gl : gitlab) (skip_blank : pyval) (group : group.t)
  : M bool :=
  if truthy skip_blank
  then emit (Call (ProjectsList (group.id group))) >>
       fails (projects_list_fails gl (group.id group)) >>
       ret (length (group.projects group) <? 1)%nat
  else ret false.

(** The body of [for g in gl_groups]; [gl.groups.get(g.id)] raises or
    answers with the record of the group listed. *)
Definition group_body (gl : gitlab) (exclude_groups : list string)
    (skip_blank skip_nested : pyval) (users : list string)
    (g : group.t) (c : counters) : M counters :=
  emit (Call (GroupsGet (group.id g))) >>
  fails (groups_get_fails gl (group.id g)) >>
  let group := g in
  let c := {| success_u := success_u c; success_g := success_g c;
              total_g := S (total_g c) |} in
  if py_in (group.id group) exclude_groups
  then logging DEBUG (GroupSkippedByRule (group.full_path group)) >> ret c
  else if truthy skip_nested && is_not_none (group.parent_id group)
  then logging DEBUG (NestedGroupSkipped (group.full_path group)) >> ret c
  else
    let* blank := blank_group gl skip_blank group in
    if blank
    then logging DEBUG (BlankGroupSkipped (group.full_path group)) >> ret c
    else
      logging INFO (WorkWithGroup (group.full_path group)) >>
      let* n := for_each users (user_body gl group) (success_u c) in
      ret {| success_u := n; success_g := S (success_g c);
             total_g := total_g c |}.

(** ** [main] *)

Section program.

(** [gitlab.const.DEFAULT_URL], a constant of the client library. *)
Variable DEFAULT_URL : string.

(** Python's built-in [int] on strings. *)
Variable int_of_str : string -> option Z.

Variable environ : gmap string string.

(** Line 134: the constant is the second positional argument of [env],
    that is, [alt_key]. *)
Definition gitlab_url : pyval :=
  env.value (env.init environ "GITLAB_URL" (Some DEFAULT_URL) PyNone).

Definition filling_users : outcome (list string) :=
  env.list (env.init environ "GITLAB_FILLING_USERS" None PyNone) ",".

Definition exclude_groups : outcome (list string) :=
  env.list (env.init environ "GITLAB_EXCLUDE_GROUPS" None PyNone) ",".

Definition skip_blank : pyval :=
  env.boolean (env.init environ "SKIP_BLANK_GROUPS" None (PyBool true)).

Definition skip_nested : pyval :=
  env.boolean (env.init environ "SKIP_NESTED_GROUPS" None (PyBool true)).

Definition access_level : outcome pyval :=
  env.int int_of_str
    (env.init environ "GITLAB_USERS_ACCESS_LEVEL" None (PyInt DEVELOPER_ACCESS)).

Definition main (gl : gitlab) : M counters :=
  (* Connect to GitLab *)
  let* gitlab_token := required (env.init environ "GITLAB_PRIVATE_TOKEN" None PyNone) in
  login_gitlab gl gitlab_url gitlab_token >>
  (* Load users list, check user exist in gitlab *)
  let* users0 := lift filling_users in
  let* users := check_users gl (sorted_set users0) in
  (* Load other env *)
  let* exclude0 := lift exclude_groups in
  let exclude_groups := sorted_set exclude0 in
  (* Get access level *)
  let* access_level := lift access_level in
  if negb (in_levels access_level)
  then logging ERROR (UnsupportedAccessLevel access_level) >> sys_exit
  else
    logging INFO (AccessLevelSet (level_name access_level)) >>
    (* Get groups *)
    emit (Call GroupsList) >>
    fails (groups_list_fails gl) >>
    let gl_groups := groups_list gl in
    let* c := for_each gl_groups
                (group_body gl exclude_groups skip_blank skip_nested users)
                {| success_u := 0; success_g := 0; total_g := 0 |} in
    logging INFO (Updated (success_u c) (success_g c) (total_g c)) >>
    logging INFO Done >>
    ret c.

End program.

(** A reader of plain decimal literals, on which it agrees with [int]. *)
Fixpoint digits (acc : Z) (s : string) : option Z :=
  match s with
  | EmptyString => Some acc
  | String c s' =>
      let n := nat_of_ascii c in
      if ((48 <=? n)%nat && (n <=? 57)%nat)%bool
      then digits (10 * acc + Z.of_nat (n - 48)) s'
      else None
  end.

Definition decimal (s : string) : option Z :=
  match s with
  | EmptyString => None
  | _ => digits 0 s
  end.

(** ** What the specification says of the value of a setting

    The primary key's environment value, else the alternate key's
    environment value (if an alternate key is given), else the default. *)
Definition resolve (environ : gmap string string)
    (key : string) (alt_key : option string) (default : pyval) : pyval :=
  match environ !! key with
  | Some v => PyStr v
  | None =>
      match alt_key with
      | Some a =>
          match environ !! a with
          | Some v => PyStr v
          | None => default
          end
      | None => default
      end
  end.

(** The words [boolean] accepts. *)
Definition true_words : list string := ["true"; "t"; "yes"; "y"; "on"; "1"].

(** ** Vocabulary of the properties *)

(** The calls that fetch or touch groups. *)
Definition group_event (e : event) : bool :=
  match e with
  | Call GroupsList | Call (GroupsGet _) | Call (ProjectsList _)
  | Call (MembersGet _ _) | Call (MembersCreate _ _ _) => true
  | _ => false
  end.

(** The group a call made after the filters is about: the project list of
    the blank filter, a membership lookup or a membership creation. *)
Definition event_group (e : event) : option pyval :=
  match e with
  | Call (ProjectsList g) | Call (MembersGet g _) | Call (MembersCreate g _ _) => Some g
  | _ => None
  end.

(** [m] leaves the membership table alone and makes no call about groups. *)
Definition quiet {A} (m : M A) : Prop :=
  forall tbl o tbl' tr, m tbl = (o, tbl', tr) ->
    tbl' = tbl /\ Forall (fun e => group_event e = false) tr.

(** [m] is quiet and never returns. *)
Definition halts {A} (m : M A) : Prop :=
  forall tbl o tbl' tr, m tbl = (o, tbl', tr) ->
    returned o = false /\ tbl' = tbl /\ Forall (fun e => group_event e = false) tr.

(** Every event of [m] satisfies [P]. *)
Definition emits {A} (P : event -> Prop) (m : M A) : Prop :=
  forall tbl o tbl' tr, m tbl = (o, tbl', tr) -> Forall P tr.

(** Two outcomes end the same way, with results related by [Q]. *)
Definition related {A} (Q : A -> A -> Prop) (o o2 : outcome A) : Prop :=
  match o, o2 with
  | Return a, Return a2 => Q a a2
  | SysExit, SysExit => True
  | Uncaught e, Uncaught e2 => e = e2
  | _, _ => False
  end.

(** [m2] replays [m1]: whatever table [m1] ends with, [m2] started on that
    table (or, when [m1] returned, on any table that extends it) ends the
    same way and leaves the table as it found it.  [m1] itself only ever
    appends rows. *)
Definition replays {A} (m1 m2 : M A) (Q : A -> A -> Prop) : Prop :=
  forall tbl o tbl' tr, m1 tbl = (o, tbl', tr) ->
    tbl `prefix_of` tbl' /\
    forall more, returned o = true \/ more = [] ->
      exists o2 tr2, m2 (tbl' ++ more) = (o2, tbl' ++ more, tr2) /\ related Q o o2.

(** [m] only ever appends rows to the membership table. *)
Definition grows {A} (m : M A) : Prop :=
  forall tbl o tbl' tr, m tbl = (o, tbl', tr) -> tbl `prefix_of` tbl'.

(** The instance reports a membership as missing only when its table has
    no row for it. *)
Definition consistent (gl : gitlab) : Prop :=
  forall g user, members_fault gl g user ≠ Some (GetError 404).

(** The answer of [m] does not depend on the membership table, and [m]
    does not change it. *)
Definition indep {A} (m : M A) : Prop :=
  exists o tr, forall tbl, m tbl = (o, tbl, tr).

(** ** Instances and environments for the examples *)

(** Everybody is known, nothing fails; one top-level group with a project. *)
Definition gl_demo : gitlab := {|
  auth := fun _ _ => AuthOk;
  users_get := fun u => Found u;
  groups_list := [ group.mk (PyInt 1) "org/team" PyNone ["site"] ];
  members_fault := fun _ _ => None;
  create_fails := fun _ _ => false;
  groups_list_fails := false;
  groups_get_fails := fun _ => false;
  projects_list_fails := fun _ => false
|}.

(** As [gl_demo], but no user is known. *)
Definition gl_nobody : gitlab := {|
  auth := fun _ _ => AuthOk;
  users_get := fun _ => GetError 404;
  groups_list := [ group.mk (PyInt 1) "org/team" PyNone ["site"] ];
  members_fault := fun _ _ => None;
  create_fails := fun _ _ => false;
  groups_list_fails := false;
  groups_get_fails := fun _ => false;
  projects_list_fails := fun _ => false
|}.

(** Two top-level groups whose identifiers are strings. *)
Definition gl_two_groups : gitlab := {|
  auth := fun _ _ => AuthOk;
  users_get := fun u => Found u;
  groups_list := [ group.mk (PyStr "7") "secret" PyNone ["vault"];
                   group.mk (PyStr "8") "org/team" PyNone ["site"] ];
  members_fault := fun _ _ => None;
  create_fails := fun _ _ => false;
  groups_list_fails := false;
  groups_get_fails := fun _ => false;
  projects_list_fails := fun _ => false
|}.

Definition environ_exclude : gmap string string :=
  {[ "GITLAB_PRIVATE_TOKEN" := "glpat";
     "GITLAB_FILLING_USERS" := "alice";
     "GITLAB_EXCLUDE_GROUPS" := "7" ]}.

(** The exclusion list names the group of [gl_demo] by its identifier. *)
Definition environ_exclude_one : gmap string string :=
  {[ "GITLAB_PRIVATE_TOKEN" := "glpat";
     "GITLAB_FILLING_USERS" := "alice";
     "GITLAB_EXCLUDE_GROUPS" := "1" ]}.

Definition environ_maintainer : gmap string string :=
  {[ "GITLAB_PRIVATE_TOKEN" := "glpat";
     "GITLAB_FILLING_USERS" := "alice";
     "GITLAB_USERS_ACCESS_LEVEL" := "40" ]}.

Definition environ_level_25 : gmap string string :=
  {[ "GITLAB_PRIVATE_TOKEN" := "glpat";
     "GITLAB_FILLING_USERS" := "alice";
     "GITLAB_USERS_ACCESS_LEVEL" := "25" ]}.

(** ** Vocabulary of the further properties *)

Definition outcome_map {A B} (f : A -> B) (o : outcome A) : outcome B :=
  match o with
  | Return a => Return (f a)
  | SysExit => SysExit
  | Uncaught e => Uncaught e
  end.

(** GitLab knows the user; GitLab answers 404 for the user. *)
Definition known (gl : gitlab) (user : string) : bool :=
  match users_get gl user with Found _ => true | _ => false end.

Definition unknown (gl : gitlab) (user : string) : bool :=
  match users_get gl user with GetError code => code =? 404 | _ => false end.

(** No two neighbours of the list are both unknown. *)
Fixpoint no_adjacent_unknown (gl : gitlab) (l : list string) : bool :=
  match l with
  | x :: rest =>
      match rest with
      | y :: _ => negb (unknown gl x && unknown gl y) && no_adjacent_unknown gl rest
      | [] => true
      end
  | [] => true
  end.

(** The users a trace looks up, in order. *)
Definition looked_up (e : event) : option string :=
  match e with Call (UsersGet user) => Some user | _ => None end.

Definition lookups (tr : list event) : list string := omap looked_up tr.

(** The loop of [check_users] read as a recursion on the rest of the list:
    a known user is kept; an unknown one is dropped and the user after it
    is passed over and kept. *)
Fixpoint walk (gl : gitlab) (l : list string) : outcome (list string) * list event :=
  match l with
  | [] => (Return [], [])
  | x :: rest =>
      match users_get gl x with
      | Found username =>
          let '(o, tr) := walk gl rest in
          (outcome_map (cons x) o,
           Call (UsersGet x) :: Log INFO (UserFound username) :: tr)
      | GetError code =>
          if code =? 404 then
            match rest with
            | [] => (Return [], [Call (UsersGet x); Log ERROR (UserIgnored x)])
            | y :: rest' =>
                let '(o, tr) := walk gl rest' in
                (outcome_map (cons y) o,
                 Call (UsersGet x) :: Log ERROR (UserIgnored x) :: tr)
            end
          else (SysExit, [Call (UsersGet x); Log FATAL (ErrorCheckUser x)])
      | OtherException => (Uncaught RemoteError, [Call (UsersGet x)])
      end
  end.

(** [sep.join(l)]. *)
Fixpoint join (sep : string) (l : list string) : string :=
  match l with
  | [] => EmptyString
  | x :: rest =>
      match rest with
      | [] => x
      | _ :: _ => String.append x (String.append sep (join sep rest))
      end
  end.

(** The row [members.create] adds. *)
Definition row (g : pyval) (user : string) : membership :=
  {| m_group := g; m_user := user; m_level := DEVELOPER_ACCESS |}.

(** The group passes the three filters of the loop. *)
Definition matching (excl : list string) (sb sn : pyval) (g : group.t) : bool :=
  negb (py_in (group.id g) excl)
  && negb (truthy sn && is_not_none (group.parent_id g))
  && negb (truthy sb && (length (group.projects g) <? 1)%nat).

(** The group and user of every row of the table. *)
Definition keys (tbl : list membership) : list (pyval * string) :=
  map (fun r => (m_group r, m_user r)) tbl.

Definition is_create (e : event) : bool :=
  match e with Call (MembersCreate _ _ _) => true | _ => false end.

(** The number of [members.create] calls of a trace. *)
Definition creations (tr : list event) : nat := length (List.filter is_create tr).

(** [m] keeps the property [I] of the membership table. *)
Definition preserves {A} (I : list membership -> Prop) (m : M A) : Prop :=
  forall tbl o tbl' tr, I tbl -> m tbl = (o, tbl', tr) -> I tbl'.

(** Every row [m] adds to the table satisfies [Q]. *)
Definition appends {A} (Q : membership -> Prop) (m : M A) : Prop :=
  forall tbl o tbl' tr, m tbl = (o, tbl', tr) ->
    exists added, tbl' = tbl ++ added /\ Forall Q added.

(** The strict order of [sorted]. *)
Definition str_lt (a b : string) : Prop := String.compare a b = Lt.

(** As [gl_demo], but the user [ghost] is unknown. *)
Definition gl_ghost : gitlab := {|
  auth := fun _ _ => AuthOk;
  users_get := fun u => if String.eqb u "ghost" then GetError 404 else Found u;
  groups_list := [ group.mk (PyInt 1) "org/team" PyNone ["site"] ];
  members_fault := fun _ _ => None;
  create_fails := fun _ _ => false;
  groups_list_fails := false;
  groups_get_fails := fun _ => false;
  projects_list_fails := fun _ => false
|}.

(** The call the blank filter makes for a group that reaches it. *)
Definition after_filters (sb : pyval) (g : group.t) : list event :=
  if truthy sb then [Call (ProjectsList (group.id g))] else [].

(** The counters after a group that was skipped, and after a group that
    was worked on and left [n] users added. *)
Definition skip_group (c : counters) : counters :=
  {| success_u := success_u c; success_g := success_g c; total_g := S (total_g c) |}.

Definition count_group (c : counters) (n : nat) : counters :=
  {| success_u := n; success_g := S (success_g c); total_g := S (total_g c) |}.

(** One of the two calls made for the group [g] outside every [try]
    raises: the fetch of its record, or the listing of its projects when
    the group reaches the blank filter. *)
Definition group_call_fails (gl : gitlab) (excl : list string) (sb sn : pyval)
    (g : group.t) : bool :=
  groups_get_fails gl (group.id g)
  || (negb (py_in (group.id g) excl)
      && negb (truthy sn && is_not_none (group.parent_id g))
      && truthy sb && projects_list_fails gl (group.id g)).

(** [m] returns, whatever the membership table. *)
Definition returns {A} (m : M A) : Prop :=
  forall tbl, exists a tbl' tr, m tbl = (Return a, tbl', tr).

(** The groups whose record a trace fetches, in order. *)
Definition fetched_group (e : event) : option pyval :=
  match e with Call (GroupsGet g) => Some g | _ => None end.

Definition fetched (tr : list event) : list pyval := omap fetched_group tr.

(** * Properties *)

(** ** Sanity checks on the helpers *)

Example split_keeps_empty_fields :
  split "," "a,b,,c" = ["a"; "b"; EmptyString; "c"].
Proof. reflexivity. Qed.

Example split_long_separator : split "::" "a::b:c::" = ["a"; "b:c"; EmptyString].
Proof. reflexivity. Qed.

Example sorted_set_dedup : sorted_set ["b"; "a"; "b"] = ["a"; "b"].
Proof. reflexivity. Qed.

Example lower_mixed_case : lower "YeS" = "yes".
Proof. reflexivity. Qed.

(** ** The configuration helper *)

Lemma environ_get_Some environ k d v :
  environ !! k = Some v -> env.environ_get environ k d = PyStr v.
Proof. intros H. unfold env.environ_get. now rewrite H. Qed.

Lemma environ_get_None environ k d :
  environ !! k = None -> env.environ_get environ k d = d.
Proof. intros H. unfold env.environ_get. now rewrite H. Qed.

Lemma init_value_resolve environ key alt_key default :
  env.value (env.init environ key alt_key default)
  = resolve environ key alt_key default.
Proof.
  unfold env.init, resolve, env.environ_get; simpl.
  destruct (environ !! key) as [v|]; [reflexivity|].
  destruct alt_key as [a|]; [|reflexivity].
  destruct (environ !! a); reflexivity.
Qed.

Lemma init_value_primary environ key alt_key default p :
  environ !! key = Some p ->
  env.value (env.init environ key alt_key default) = PyStr p.
Proof. intros H. rewrite init_value_resolve. unfold resolve. now rewrite H. Qed.

Lemma init_value_unset environ key alt_key default :
  environ !! key = None -> (alt_key ≫= (environ !!.)) = None ->
  env.value (env.init environ key alt_key default) = default.
Proof.
  intros H Ha. rewrite init_value_resolve. unfold resolve. rewrite H.
  destruct alt_key as [a|]; simpl in Ha; [|reflexivity]. now rewrite Ha.
Qed.

Lemma truthy_nonempty s : s ≠ EmptyString -> truthy (PyStr s) = true.
Proof.
  intros H. simpl. destruct (String.eqb_spec s EmptyString); [contradiction|reflexivity].
Qed.

(** C8: the value of a setting is the primary key's environment value if it
    is set, else the alternate key's environment value if an alternate key
    is given and set, else the default; whenever the primary key is set its
    value is returned, whatever the alternate key holds. *)
Theorem env_value_precedence
    (environ : gmap string string) (key : string) (alt_key : option string)
    (default : pyval) :
  env.value (env.init environ key alt_key default)
    = resolve environ key alt_key default
  /\ (forall p, environ !! key = Some p ->
        env.value (env.init environ key alt_key default) = PyStr p)
  /\ (forall a q, environ !! key = None -> alt_key = Some a ->
        environ !! a = Some q ->
        env.value (env.init environ key alt_key default) = PyStr q)
  /\ (environ !! key = None -> (alt_key ≫= (environ !!.)) = None ->
        env.value (env.init environ key alt_key default) = default).
Proof.
  rewrite init_value_resolve. unfold resolve.
  split; [reflexivity|]. split; [|split].
  - intros p ->. reflexivity.
  - intros a q -> -> ->. reflexivity.
  - intros ->. destruct alt_key as [a|]; simpl; [|reflexivity].
    intros ->. reflexivity.
Qed.

Lemma env_value_precedence_witness :
  env.value (env.init {[ "PRIMARY" := "p"; "ALTERNATE" := "a" ]}
               "PRIMARY" (Some "ALTERNATE") (PyStr "d")) = PyStr "p".
Proof.
  apply (env_value_precedence {[ "PRIMARY" := "p"; "ALTERNATE" := "a" ]}
           "PRIMARY" (Some "ALTERNATE") (PyStr "d")).
  vm_compute. reflexivity.
Defined.

(** C9, as the code has it: [boolean] reads the value the setting resolves
    to.  For a variable set to a non-empty string it is [True] exactly when
    the lowercased string is one of true, t, yes, y, on, 1 and [False] for
    every other non-empty string.  For an unset variable the value is the
    default: a default that is a true value is read like a value, [True]
    exactly when [str(default).lower()] is one of the six words and [False]
    otherwise, and only a default that is not a true value ([None],
    [False], [0], the empty string) is returned as it is.  The default is
    also returned whenever the value is not a true value, and so an unset
    variable with a default that is [None] or a Python bool yields that
    default. *)
Theorem boolean_reads_resolved_value
    (environ : gmap string string) (key : string) (alt_key : option string)
    (default : pyval) :
  (forall s, environ !! key = Some s -> s ≠ EmptyString ->
     env.boolean (env.init environ key alt_key default)
       = PyBool (bool_decide (lower s ∈ true_words)))
  /\ (environ !! key = None -> (alt_key ≫= (environ !!.)) = None ->
      env.boolean (env.init environ key alt_key default)
        = if truthy default
          then PyBool (bool_decide (lower (py_str default) ∈ true_words))
          else default)
  /\ (forall e, truthy (env.value e) = false -> env.boolean e = env.default e)
  /\ (environ !! key = None -> (alt_key ≫= (environ !!.)) = None ->
      (default = PyNone \/ exists b, default = PyBool b) ->
      env.boolean (env.init environ key alt_key default) = default).
Proof.
  split; [|split; [|split]].
  - intros s Hs Hne. unfold env.boolean.
    rewrite (init_value_primary _ _ _ _ _ Hs), (truthy_nonempty s Hne). reflexivity.
  - intros Hk Ha. unfold env.boolean.
    rewrite (init_value_unset _ _ _ _ Hk Ha). simpl env.default.
    destruct (truthy default); reflexivity.
  - intros e He. unfold env.boolean. now rewrite He.
  - intros Hk Ha Hd. unfold env.boolean.
    rewrite (init_value_unset _ _ _ _ Hk Ha). simpl env.default.
    destruct Hd as [-> | [[|] ->]]; reflexivity.
Qed.

Lemma boolean_reads_resolved_value_witness :
  env.boolean (env.init {[ "SKIP_BLANK_GROUPS" := "YeS" ]}
                 "SKIP_BLANK_GROUPS" None (PyBool false)) = PyBool true
  /\ env.boolean (env.init ∅ "SKIP_BLANK_GROUPS" None (PyBool true)) = PyBool true
  /\ env.boolean (env.init ∅ "SKIP_BLANK_GROUPS" None (PyStr "no")) = PyBool false.
Proof.
  split; [|split].
  - destruct (boolean_reads_resolved_value {[ "SKIP_BLANK_GROUPS" := "YeS" ]}
                "SKIP_BLANK_GROUPS" None (PyBool false)) as (H & _).
    rewrite (H "YeS").
    + vm_compute. reflexivity.
    + vm_compute. reflexivity.
    + discriminate.
  - destruct (boolean_reads_resolved_value ∅ "SKIP_BLANK_GROUPS" None (PyBool true))
      as (_ & _ & _ & H).
    apply H.
    + vm_compute. reflexivity.
    + reflexivity.
    + right. exists true. reflexivity.
  - destruct (boolean_reads_resolved_value ∅ "SKIP_BLANK_GROUPS" None (PyStr "no"))
      as (_ & H & _).
    rewrite H.
    + vm_compute. reflexivity.
    + vm_compute. reflexivity.
    + reflexivity.
Defined.

(** C9 as stated fails: for an unset variable with the default ['no'], or
    with the default [30], [boolean] does not return the default: the
    default is a true value, it is lowercased and looked up among the six
    words, and the answer is [False]. *)
Lemma boolean_unset_default_is_parsed :
  let e := env.init ∅ "SKIP_BLANK_GROUPS" None (PyStr "no") in
  env.value e = PyStr "no"
  /\ env.default e = PyStr "no"
  /\ env.boolean e = PyBool false
  /\ env.boolean e ≠ env.default e
  /\ env.boolean (env.init ∅ "GITLAB_USERS_ACCESS_LEVEL" None (PyInt 30))
     = PyBool false.
Proof. vm_compute. repeat split; try reflexivity. discriminate. Qed.

(** C10: when the variable is set to the empty string the value of the
    setting is the empty string, not [None], and yet [int] returns the
    default unparsed, [boolean] returns the default and [list] returns the
    empty list. *)
Theorem empty_string_reads_as_unset
    (int_of_str : string -> option Z)
    (environ : gmap string string) (key : string) (alt_key : option string)
    (default : pyval) (separator : string) :
  environ !! key = Some EmptyString ->
  let e := env.init environ key alt_key default in
  env.value e = PyStr EmptyString
  /\ env.int int_of_str e = Return default
  /\ env.boolean e = default
  /\ env.list e separator = Return [].
Proof.
  intros Hk e.
  assert (Hv : env.value e = PyStr EmptyString).
  { exact (init_value_primary _ _ _ _ _ Hk). }
  unfold env.int, env.boolean, env.list. rewrite Hv. simpl.
  repeat split; reflexivity.
Qed.

Lemma empty_string_reads_as_unset_witness :
  let e := env.init {[ "GITLAB_USERS_ACCESS_LEVEL" := EmptyString ]}
             "GITLAB_USERS_ACCESS_LEVEL" None (PyInt 30) in
  env.value e = PyStr EmptyString
  /\ env.int decimal e = Return (PyInt 30)
  /\ env.boolean e = PyInt 30
  /\ env.list e "," = Return [].
Proof.
  apply (empty_string_reads_as_unset decimal
           {[ "GITLAB_USERS_ACCESS_LEVEL" := EmptyString ]}
           "GITLAB_USERS_ACCESS_LEVEL" None (PyInt 30) ",").
  vm_compute. reflexivity.
Defined.

(** C5, as the code has it: [required] ends the process with a fatal log
    exactly when the value of the setting is [None], that is when neither
    the variable nor an alternate is set and there is no default; every
    other value, the empty string included, is returned. *)
Theorem required_exits_on_none (e : env.t) (tbl : list membership) :
  (env.value e = PyNone ->
     required e tbl = (SysExit, tbl, [Log FATAL (RequiredNotSet (env.key e))]))
  /\ (env.value e ≠ PyNone -> required e tbl = (Return (env.value e), tbl, [])).
Proof.
  unfold required, is_not_none. split.
  - intros ->. reflexivity.
  - intros H. destruct (env.value e); try reflexivity. contradiction.
Qed.

Lemma required_exits_on_none_witness :
  required (env.init ∅ "GITLAB_PRIVATE_TOKEN" None PyNone) []
    = (SysExit, [], [Log FATAL (RequiredNotSet "GITLAB_PRIVATE_TOKEN")])
  /\ required (env.init {[ "GITLAB_PRIVATE_TOKEN" := "glpat" ]}
                 "GITLAB_PRIVATE_TOKEN" None PyNone) []
    = (Return (PyStr "glpat"), [], []).
Proof.
  split.
  - destruct (required_exits_on_none
                (env.init ∅ "GITLAB_PRIVATE_TOKEN" None PyNone) []) as [H _].
    apply H. vm_compute. reflexivity.
  - destruct (required_exits_on_none
                (env.init {[ "GITLAB_PRIVATE_TOKEN" := "glpat" ]}
                   "GITLAB_PRIVATE_TOKEN" None PyNone) []) as [_ H].
    rewrite H.
    + vm_compute. reflexivity.
    + vm_compute. discriminate.
Defined.

(** C5 as stated fails: with the variable set to the empty string the value
    of the setting is empty, and [required] returns it without a log and
    without ending the process. *)
Lemma required_returns_empty_string :
  let e := env.init {[ "GITLAB_PRIVATE_TOKEN" := EmptyString ]}
             "GITLAB_PRIVATE_TOKEN" None PyNone in
  env.value e = PyStr EmptyString
  /\ required e [] = (Return (PyStr EmptyString), [], [])
  /\ ~ (exists tr, required e [] = (SysExit, [], tr)).
Proof.
  vm_compute. repeat split; try reflexivity.
  intros [tr H]. discriminate H.
Qed.

(** Whenever [GITLAB_URL] is unset, the URL is [None] unless a variable
    named like the library's default URL happens to be set. *)
Lemma gitlab_url_unset DEFAULT_URL environ :
  environ !! "GITLAB_URL" = None -> environ !! DEFAULT_URL = None ->
  gitlab_url DEFAULT_URL environ = PyNone.
Proof.
  intros H1 H2. unfold gitlab_url. apply init_value_unset; [exact H1|exact H2].
Qed.

(** C4, where the code departs from it: with [GITLAB_URL] unset the URL
    handed to the login is [None]; the library constant went into
    [alt_key] and names a variable nobody sets. *)
Theorem gitlab_url_unset_is_none (DEFAULT_URL : string) :
  gitlab_url DEFAULT_URL ∅ = PyNone
  /\ env.alt_key (env.init ∅ "GITLAB_URL" (Some DEFAULT_URL) PyNone) = Some DEFAULT_URL
  /\ env.default (env.init ∅ "GITLAB_URL" (Some DEFAULT_URL) PyNone) = PyNone.
Proof.
  unfold gitlab_url. rewrite init_value_resolve. unfold resolve.
  rewrite !lookup_empty. repeat split; reflexivity.
Qed.

(** ** Checking the users *)

Lemma check_users_from_total gl fuel : forall i users,
  (length users - i <= fuel)%nat ->
  is_Some (check_users_from gl fuel i users).
Proof.
  induction fuel as [|fuel IH]; intros i users Hfuel.
  - simpl. destruct (users !! i) as [val|] eqn:E; [|eauto].
    apply lookup_lt_Some in E. lia.
  - simpl. destruct (users !! i) as [val|] eqn:E; [|eauto].
    pose proof (lookup_lt_Some _ _ _ E) as Hi.
    destruct (users_get gl val) as [username|code|]; [| |eauto].
    + destruct (IH (S i) users) as [[o tr] ->]; [lia|]. simpl. eauto.
    + destruct (code =? 404); [|eauto].
      destruct (IH (S i) (delete i users)) as [[o tr] ->]; [|simpl; eauto].
      rewrite length_delete by eauto. lia.
Qed.

(** The loop of [check_users] always comes to its end within the fuel it
    is given. *)
Lemma check_users_total gl users :
  is_Some (check_users_from gl (length users) 0 users).
Proof. apply check_users_from_total. lia. Qed.

(** The loop never reaches back: what lies before index [i] stays. *)
Lemma check_users_from_prefix gl fuel : forall i users us tr,
  check_users_from gl fuel i users = Some (Return us, tr) ->
  take i us = take i users.
Proof.
  induction fuel as [|fuel IH]; intros i users us tr; simpl.
  - destruct (users !! i); [discriminate|]. intros [= <- _]. reflexivity.
  - destruct (users !! i) as [val|] eqn:E; [|intros [= <- _]; reflexivity].
    pose proof (lookup_lt_Some _ _ _ E) as Hi.
    destruct (users_get gl val) as [username|code|]; [| |discriminate].
    + destruct (check_users_from gl fuel (S i) users) as [[o1 tr1]|] eqn:R;
        [|discriminate].
      simpl. intros [= -> _]. apply IH in R.
      apply (f_equal (take i)) in R. rewrite !take_take in R.
      now rewrite Nat.min_l in R by lia.
    + destruct (code =? 404); [|discriminate].
      destruct (check_users_from gl fuel (S i) (delete i users))
        as [[o1 tr1]|] eqn:R; [|discriminate].
      simpl. intros [= -> _]. apply IH in R.
      apply (f_equal (take i)) in R. rewrite !take_take in R.
      rewrite Nat.min_l in R by lia. rewrite R, delete_take_drop.
      apply take_app_length'. rewrite length_take. lia.
Qed.

(** One turn of the loop. *)
Lemma check_users_from_step gl fuel i users val :
  users !! i = Some val ->
  check_users_from gl (S fuel) i users =
  match users_get gl val with
  | Found username =>
      '(o, tr) ← check_users_from gl fuel (S i) users;
      Some (o, Call (UsersGet val) :: Log INFO (UserFound username) :: tr)
  | GetError response_code =>
      if response_code =? 404
      then '(o, tr) ← check_users_from gl fuel (S i) (delete i users);
           Some (o, Call (UsersGet val) :: Log ERROR (UserIgnored val) :: tr)
      else Some (SysExit, [Call (UsersGet val); Log FATAL (ErrorCheckUser val)])
  | OtherException => Some (Uncaught RemoteError, [Call (UsersGet val)])
  end.
Proof. intros H. simpl. rewrite H. reflexivity. Qed.

(** The identifier that follows a removed one is kept, whatever GitLab
    would have answered for it. *)
Lemma pop_keeps_next gl x y rest tbl us tbl' tr :
  users_get gl x = GetError 404 ->
  check_users gl (x :: y :: rest) tbl = (Return us, tbl', tr) ->
  us !! 0%nat = Some y.
Proof.
  intros Hx. unfold check_users.
  change (length (x :: y :: rest)) with (S (S (length rest))).
  rewrite (check_users_from_step gl _ 0 (x :: y :: rest) x eq_refl), Hx.
  change (404 =? 404) with true. cbv iota.
  change (delete 0%nat (x :: y :: rest)) with (y :: rest).
  destruct (check_users_from gl (S (length rest)) 1 (y :: rest))
    as [[o1 tr1]|] eqn:R.
  - simpl. intros [= -> _ _]. apply check_users_from_prefix in R.
    destruct us as [|u us]; [discriminate|]. now injection R as ->.
  - destruct (check_users_from_total gl (S (length rest)) 1 (y :: rest))
      as [r Hr]; [simpl; lia|]. congruence.
Qed.

(** C3, where the code departs from it: with users [a] and [b], both
    unknown to GitLab, the loop removes [a], never looks [b] up and keeps
    it. *)
Theorem check_users_skips_after_pop :
  check_users gl_nobody (sorted_set ["a"; "b"]) []
    = (Return ["b"], [], [Call (UsersGet "a"); Log ERROR (UserIgnored "a")])
  /\ users_get gl_nobody "b" = GetError 404.
Proof. split; reflexivity. Qed.

(** ** Granting access *)

(** C1, where the code departs from it: with the access level set to 40
    the level is accepted and announced as such, and the membership is
    created with level 30. *)
Theorem main_grants_developer_access :
  access_level decimal environ_maintainer = Return (PyInt 40)
  /\ main "https://gitlab.com" decimal environ_maintainer gl_demo []
     = (Return {| success_u := 1; success_g := 1; total_g := 1 |},
        [ {| m_group := PyInt 1; m_user := "alice"; m_level := 30 |} ],
        [ Call (Auth PyNone (PyStr "glpat")); Log INFO (LoggedIn PyNone);
          Call (UsersGet "alice"); Log INFO (UserFound "alice");
          Log INFO (AccessLevelSet "Mainteiner");
          Call GroupsList;
          Call (GroupsGet (PyInt 1)); Call (ProjectsList (PyInt 1));
          Log INFO (WorkWithGroup "org/team");
          Call (MembersGet (PyInt 1) "alice");
          Call (MembersCreate (PyInt 1) "alice" 30);
          Log INFO (AddedUser "alice" "org/team");
          Log INFO (Updated 1 1 1); Log INFO Done ]).
Proof. split; vm_compute; reflexivity. Qed.

(** The scenario of the specification: [ghost] is unknown and dropped,
    [alice] is added to the one eligible group. *)
Example main_alice_and_ghost :
  main "https://gitlab.com" decimal
    {[ "GITLAB_PRIVATE_TOKEN" := "glpat"; "GITLAB_FILLING_USERS" := "ghost,alice" ]}
    {| auth := fun _ _ => AuthOk;
       users_get := fun u => if String.eqb u "ghost" then GetError 404 else Found u;
       groups_list := [ group.mk (PyInt 1) "org/team" PyNone ["a"; "b"; "c"];
                        group.mk (PyInt 2) "org/team/sub" (PyInt 1) ["d"] ];
       members_fault := fun _ _ => None;
       create_fails := fun _ _ => false;
       groups_list_fails := false;
       groups_get_fails := fun _ => false;
       projects_list_fails := fun _ => false |} []
  = (Return {| success_u := 1; success_g := 1; total_g := 2 |},
     [ {| m_group := PyInt 1; m_user := "alice"; m_level := 30 |} ],
     [ Call (Auth PyNone (PyStr "glpat")); Log INFO (LoggedIn PyNone);
       Call (UsersGet "alice"); Log INFO (UserFound "alice");
       Call (UsersGet "ghost"); Log ERROR (UserIgnored "ghost");
       Log INFO (AccessLevelSet "Developer");
       Call GroupsList;
       Call (GroupsGet (PyInt 1)); Call (ProjectsList (PyInt 1));
       Log INFO (WorkWithGroup "org/team");
       Call (MembersGet (PyInt 1) "alice");
       Call (MembersCreate (PyInt 1) "alice" 30);
       Log INFO (AddedUser "alice" "org/team");
       Call (GroupsGet (PyInt 2)); Log DEBUG (NestedGroupSkipped "org/team/sub");
       Log INFO (Updated 1 1 2); Log INFO Done ]).
Proof. vm_compute. reflexivity. Qed.

(** The calls made outside every [try] end the run when they raise: with
    the fetch of the second group failing, the first group is worked on,
    the exception is uncaught, the membership created before it stays and
    no summary is logged. *)
Example main_group_fetch_raises :
  main "https://gitlab.com" decimal
    {[ "GITLAB_PRIVATE_TOKEN" := "glpat"; "GITLAB_FILLING_USERS" := "alice" ]}
    {| auth := fun _ _ => AuthOk;
       users_get := fun u => Found u;
       groups_list := [ group.mk (PyInt 1) "org/team" PyNone ["a"];
                        group.mk (PyInt 2) "org/tools" PyNone ["b"] ];
       members_fault := fun _ _ => None;
       create_fails := fun _ _ => false;
       groups_list_fails := false;
       groups_get_fails := fun g => py_eq g (PyInt 2);
       projects_list_fails := fun _ => false |} []
  = (Uncaught RemoteError,
     [ {| m_group := PyInt 1; m_user := "alice"; m_level := 30 |} ],
     [ Call (Auth PyNone (PyStr "glpat")); Log INFO (LoggedIn PyNone);
       Call (UsersGet "alice"); Log INFO (UserFound "alice");
       Log INFO (AccessLevelSet "Developer");
       Call GroupsList;
       Call (GroupsGet (PyInt 1)); Call (ProjectsList (PyInt 1));
       Log INFO (WorkWithGroup "org/team");
       Call (MembersGet (PyInt 1) "alice");
       Call (MembersCreate (PyInt 1) "alice" 30);
       Log INFO (AddedUser "alice" "org/team");
       Call (GroupsGet (PyInt 2)) ]).
Proof. vm_compute. reflexivity. Qed.

(** ** Reasoning in the monad *)

Lemma bind_Return {A B} (m : M A) (k : A -> M B) tbl a tbl1 tr1 :
  m tbl = (Return a, tbl1, tr1) ->
  bind m k tbl = (let '(o, tbl2, tr2) := k a tbl1 in (o, tbl2, tr1 ++ tr2)).
Proof. intros H. unfold bind. rewrite H. reflexivity. Qed.

Lemma bind_SysExit {A B} (m : M A) (k : A -> M B) tbl tbl1 tr1 :
  m tbl = (SysExit, tbl1, tr1) -> bind m k tbl = (SysExit, tbl1, tr1).
Proof. intros H. unfold bind. rewrite H. reflexivity. Qed.

Lemma bind_Uncaught {A B} (m : M A) (k : A -> M B) tbl e tbl1 tr1 :
  m tbl = (Uncaught e, tbl1, tr1) -> bind m k tbl = (Uncaught e, tbl1, tr1).
Proof. intros H. unfold bind. rewrite H. reflexivity. Qed.

(** A bound computation either ran its continuation or stopped before. *)
Lemma bind_inv {A B} (m : M A) (k : A -> M B) tbl o tbl' tr :
  bind m k tbl = (o, tbl', tr) ->
  (exists a tbl1 tr1 tr2,
      m tbl = (Return a, tbl1, tr1) /\ k a tbl1 = (o, tbl', tr2) /\ tr = tr1 ++ tr2)
  \/ (m tbl = (SysExit, tbl', tr) /\ o = SysExit)
  \/ (exists e, m tbl = (Uncaught e, tbl', tr) /\ o = Uncaught e).
Proof.
  unfold bind. destruct (m tbl) as [[[a| |e] tbl1] tr1].
  - destruct (k a tbl1) as [[o2 tbl2] tr2] eqn:Ek. intros [= <- <- <-].
    left. exists a, tbl1, tr1, tr2. repeat split. exact Ek.
  - intros [= <- <- <-]. right. left. split; reflexivity.
  - intros [= <- <- <-]. right. right. exists e. split; reflexivity.
Qed.

Ltac bind_cases H :=
  let a := fresh "a" in let tbl1 := fresh "tbl1" in
  let tr1 := fresh "tr1" in let tr2 := fresh "tr2" in
  let E1 := fresh "E1" in let E2 := fresh "E2" in let e := fresh "e" in
  apply bind_inv in H as
    [ (a & tbl1 & tr1 & tr2 & E1 & E2 & ->)
    | [ (E1 & ->) | (e & E1 & ->) ] ].

(** *** Quiet computations *)

Lemma quiet_ret {A} (a : A) : quiet (ret a).
Proof. intros tbl o tbl' tr [= <- <- <-]. auto. Qed.

Lemma quiet_lift {A} (o : outcome A) : quiet (lift o).
Proof. intros tbl o' tbl' tr [= <- <- <-]. auto. Qed.

Lemma quiet_fails b : quiet (fails b).
Proof. destruct b; [apply quiet_lift|apply quiet_ret]. Qed.

Lemma quiet_sys_exit {A} : quiet (@sys_exit A).
Proof. intros tbl o tbl' tr [= <- <- <-]. auto. Qed.

Lemma quiet_emit e : group_event e = false -> quiet (emit e).
Proof. intros He tbl o tbl' tr [= <- <- <-]. auto. Qed.

Lemma quiet_logging l msg : quiet (logging l msg).
Proof. apply quiet_emit. reflexivity. Qed.

Lemma quiet_bind {A B} (m : M A) (k : A -> M B) :
  quiet m -> (forall a, quiet (k a)) -> quiet (bind m k).
Proof.
  intros Hm Hk tbl o tbl' tr H. bind_cases H.
  - apply Hm in E1 as [-> F1]. apply Hk in E2 as [-> F2].
    split; [reflexivity|]. apply Forall_app. split; assumption.
  - apply Hm in E1. exact E1.
  - apply Hm in E1. exact E1.
Qed.

Lemma halts_bind {A B} (m : M A) (k : A -> M B) :
  quiet m -> (forall a, halts (k a)) -> halts (bind m k).
Proof.
  intros Hm Hk tbl o tbl' tr H. bind_cases H.
  - apply Hm in E1 as [-> F1]. apply Hk in E2 as (Hr & -> & F2).
    split; [exact Hr|]. split; [reflexivity|]. apply Forall_app. split; assumption.
  - apply Hm in E1 as [-> F1]. auto.
  - apply Hm in E1 as [-> F1]. auto.
Qed.

Lemma halts_log_exit {A} l msg : halts (logging l msg >> @sys_exit A).
Proof. intros tbl o tbl' tr [= <- <- <-]. repeat constructor. Qed.

Lemma quiet_required e : quiet (required e).
Proof.
  unfold required. destruct (is_not_none (env.value e)).
  - apply quiet_ret.
  - apply quiet_bind; [apply quiet_logging|intros _; apply quiet_sys_exit].
Qed.

Lemma quiet_login_gitlab gl url token : quiet (login_gitlab gl url token).
Proof.
  unfold login_gitlab. apply quiet_bind; [apply quiet_emit; reflexivity|].
  intros _. destruct (auth gl url token).
  - apply quiet_logging.
  - apply quiet_bind; [apply quiet_logging|intros _; apply quiet_sys_exit].
  - apply quiet_bind; [apply quiet_logging|intros _; apply quiet_sys_exit].
Qed.

Lemma check_users_from_events gl fuel : forall i users o tr,
  check_users_from gl fuel i users = Some (o, tr) ->
  Forall (fun e => group_event e = false) tr.
Proof.
  induction fuel as [|fuel IH]; intros i users o tr; simpl.
  - destruct (users !! i); [discriminate|]. intros [= <- <-]. constructor.
  - destruct (users !! i) as [val|]; [|intros [= <- <-]; constructor].
    destruct (users_get gl val) as [username|code|].
    + destruct (check_users_from gl fuel (S i) users) as [[o1 tr1]|] eqn:E;
        [|discriminate].
      simpl. intros [= <- <-]. repeat constructor. exact (IH _ _ _ _ E).
    + destruct (code =? 404).
      * destruct (check_users_from gl fuel (S i) (delete i users))
          as [[o1 tr1]|] eqn:E; [|discriminate].
        simpl. intros [= <- <-]. repeat constructor. exact (IH _ _ _ _ E).
      * intros [= <- <-]. repeat constructor.
    + intros [= <- <-]. repeat constructor.
Qed.

Lemma quiet_check_users gl users : quiet (check_users gl users).
Proof.
  intros tbl o tbl' tr. unfold check_users.
  destruct (check_users_from gl (length users) 0 users) as [[o1 tr1]|] eqn:E.
  - intros [= <- <- <-]. split; [reflexivity|].
    exact (check_users_from_events _ _ _ _ _ _ E).
  - intros [= <- <- <-]. auto.
Qed.

(** ** The access level *)

Lemma in_levels_int z :
  z ∉ [0; 10; 20; 30; 40; 50] -> in_levels (PyInt z) = false.
Proof.
  rewrite !not_elem_of_cons. intros (H0 & H10 & H20 & H30 & H40 & H50 & _).
  unfold in_levels, levels. simpl.
  repeat match goal with
         | H : z ≠ ?k |- context [z =? ?k] => rewrite (proj2 (Z.eqb_neq z k) H)
         end.
  reflexivity.
Qed.

(** The access level the configuration resolves to is an integer. *)
Lemma access_level_is_int int_of_str environ v :
  access_level int_of_str environ = Return v -> exists z, v = PyInt z.
Proof.
  unfold access_level, env.int. rewrite init_value_resolve. unfold resolve. simpl.
  destruct (environ !! "GITLAB_USERS_ACCESS_LEVEL") as [s|]; simpl.
  - destruct (String.eqb s EmptyString); simpl; [intros [= <-]; eauto|].
    destruct (int_of_str s); [intros [= <-]; eauto|discriminate].
  - intros [= <-]. eauto.
Qed.

(** C7: when the access level the configuration resolves to is none of
    0, 10, 20, 30, 40, 50 the run never returns, makes no call that lists,
    fetches or changes a group, and leaves every membership as it was. *)
Theorem unsupported_access_level_halts
    (DEFAULT_URL : string) (int_of_str : string -> option Z)
    (environ : gmap string string) (gl : gitlab) (z : Z)
    (tbl : list membership) o tbl' tr :
  access_level int_of_str environ = Return (PyInt z) ->
  z ∉ [0; 10; 20; 30; 40; 50] ->
  main DEFAULT_URL int_of_str environ gl tbl = (o, tbl', tr) ->
  returned o = false /\ tbl' = tbl
  /\ Forall (fun e => group_event e = false) tr.
Proof.
  intros Hv Hin. apply in_levels_int in Hin.
  revert tbl o tbl' tr. change (halts (main DEFAULT_URL int_of_str environ gl)).
  unfold main.
  apply halts_bind; [apply quiet_required|]. intros gitlab_token.
  apply halts_bind; [apply quiet_login_gitlab|]. intros _.
  apply halts_bind; [apply quiet_lift|]. intros users0.
  apply halts_bind; [apply quiet_check_users|]. intros users.
  apply halts_bind; [apply quiet_lift|]. intros exclude0.
  rewrite Hv.
  intros tbl o tbl' tr H. bind_cases H; try discriminate.
  injection E1 as <- <- <-. rewrite Hin in E2. simpl in E2.
  injection E2 as <- <- <-. repeat constructor.
Qed.

Lemma unsupported_access_level_halts_witness :
  main "https://gitlab.com" decimal environ_level_25 gl_demo []
  = (SysExit, [],
     [ Call (Auth PyNone (PyStr "glpat")); Log INFO (LoggedIn PyNone);
       Call (UsersGet "alice"); Log INFO (UserFound "alice");
       Log ERROR (UnsupportedAccessLevel (PyInt 25)) ])
  /\ Forall (fun e => group_event e = false)
       [ Call (Auth PyNone (PyStr "glpat")); Log INFO (LoggedIn PyNone);
         Call (UsersGet "alice"); Log INFO (UserFound "alice");
         Log ERROR (UnsupportedAccessLevel (PyInt 25)) ].
Proof.
  split; [vm_compute; reflexivity|].
  apply (unsupported_access_level_halts "https://gitlab.com" decimal
           environ_level_25 gl_demo 25 [] SysExit []).
  - vm_compute. reflexivity.
  - rewrite !not_elem_of_cons. repeat split; try discriminate. apply not_elem_of_nil.
  - vm_compute. reflexivity.
Defined.

(** ** Events of a run *)

Lemma emits_ret {A} P (a : A) : emits P (ret a).
Proof. intros tbl o tbl' tr [= <- <- <-]. constructor. Qed.

Lemma emits_emit P e : P e -> emits P (emit e).
Proof. intros He tbl o tbl' tr [= <- <- <-]. repeat constructor. exact He. Qed.

Lemma emits_bind {A B} P (m : M A) (k : A -> M B) :
  emits P m -> (forall a, emits P (k a)) -> emits P (bind m k).
Proof.
  intros Hm Hk tbl o tbl' tr H. bind_cases H.
  - apply Forall_app. split; [exact (Hm _ _ _ _ E1)|exact (Hk _ _ _ _ _ E2)].
  - exact (Hm _ _ _ _ E1).
  - exact (Hm _ _ _ _ E1).
Qed.

Lemma emits_bind_lift {A B} P (o : outcome A) (k : A -> M B) :
  (forall a, o = Return a -> emits P (k a)) -> emits P (bind (lift o) k).
Proof.
  intros Hk tbl o' tbl' tr H. bind_cases H.
  - injection E1 as -> <- <-. exact (Hk _ eq_refl _ _ _ _ E2).
  - injection E1 as -> <- <-. constructor.
  - injection E1 as -> <- <-. constructor.
Qed.

Lemma emits_for_each {A S} P (body : A -> S -> M S) (l : list A) :
  (forall x s, emits P (body x s)) -> forall s, emits P (for_each l body s).
Proof.
  intros Hb. induction l as [|x l IH]; intros s; simpl.
  - apply emits_ret.
  - apply emits_bind; [apply Hb|exact IH].
Qed.

Lemma event_group_None e : group_event e = false -> event_group e = None.
Proof. destruct e as [[]|]; simpl; congruence. Qed.

Lemma emits_quiet {A} (P : event -> Prop) (m : M A) :
  (forall e, event_group e = None -> P e) -> quiet m -> emits P m.
Proof.
  intros HP Hm tbl o tbl' tr H. apply Hm in H as [_ F].
  eapply Forall_impl; [exact F|]. intros e He. apply HP, event_group_None, He.
Qed.

Section events.

Variable P : event -> Prop.
Hypothesis P_other : forall e, event_group e = None -> P e.

Lemma emits_logging l msg : emits P (logging l msg).
Proof. apply emits_emit, P_other. reflexivity. Qed.

Lemma emits_user_body gl g user n :
  P (Call (MembersGet (group.id g) user)) ->
  P (Call (MembersCreate (group.id g) user DEVELOPER_ACCESS)) ->
  emits P (user_body gl g user n).
Proof.
  intros Hget Hcreate. unfold user_body.
  apply emits_bind.
  { intros tbl o tbl' tr [= <- <- <-]. repeat constructor. exact Hget. }
  intros [[]|code|].
  - apply emits_ret.
  - destruct (code =? 404).
    + apply emits_bind.
      { intros tbl o tbl' tr. unfold members_create.
        destruct (create_fails gl (group.id g) user);
          intros [= <- <- <-]; repeat constructor; exact Hcreate. }
      intros _. apply emits_bind; [apply emits_logging|intros _; apply emits_ret].
    + apply emits_bind; [apply emits_logging|intros _; apply emits_ret].
  - apply emits_bind; [apply emits_logging|].
    intros _ tbl o tbl' tr [= <- <- <-]. constructor.
Qed.

Lemma emits_fails b : emits P (fails b).
Proof. apply emits_quiet, quiet_fails. exact P_other. Qed.

Lemma emits_blank_group gl sb g :
  (truthy sb = true -> P (Call (ProjectsList (group.id g)))) ->
  emits P (blank_group gl sb g).
Proof.
  intros Hp. unfold blank_group. destruct (truthy sb).
  - apply emits_bind; [apply emits_emit; auto|intros _].
    apply emits_bind; [apply emits_fails|intros _; apply emits_ret].
  - apply emits_ret.
Qed.

Lemma emits_group_body gl excl sb sn users g c :
  (py_in (group.id g) excl = false ->
   P (Call (ProjectsList (group.id g)))
   /\ forall user, P (Call (MembersGet (group.id g) user))
                   /\ P (Call (MembersCreate (group.id g) user DEVELOPER_ACCESS))) ->
  emits P (group_body gl excl sb sn users g c).
Proof.
  intros Hg. unfold group_body.
  apply emits_bind; [apply emits_emit, P_other; reflexivity|]. intros _.
  apply emits_bind; [apply emits_fails|]. intros _.
  cbv zeta. destruct (py_in (group.id g) excl).
  { apply emits_bind; [apply emits_logging|intros _; apply emits_ret]. }
  destruct (Hg eq_refl) as [Hproj Huser].
  destruct (truthy sn && is_not_none (group.parent_id g)).
  { apply emits_bind; [apply emits_logging|intros _; apply emits_ret]. }
  apply emits_bind; [apply emits_blank_group; auto|]. intros [|].
  { apply emits_bind; [apply emits_logging|intros _; apply emits_ret]. }
  apply emits_bind; [apply emits_logging|]. intros _.
  apply emits_bind; [|intros n; apply emits_ret].
  apply emits_for_each. intros user n. apply emits_user_body; apply Huser.
Qed.

Lemma emits_main DEFAULT_URL int_of_str environ gl :
  (forall excl0 g, exclude_groups environ = Return excl0 ->
     py_in g (sorted_set excl0) = false ->
     P (Call (ProjectsList g))
     /\ forall user, P (Call (MembersGet g user))
                     /\ P (Call (MembersCreate g user DEVELOPER_ACCESS))) ->
  emits P (main DEFAULT_URL int_of_str environ gl).
Proof.
  intros Hg. unfold main.
  apply emits_bind; [apply emits_quiet, quiet_required; exact P_other|].
  intros gitlab_token.
  apply emits_bind; [apply emits_quiet, quiet_login_gitlab; exact P_other|].
  intros _. apply emits_bind_lift. intros users0 _.
  apply emits_bind; [apply emits_quiet, quiet_check_users; exact P_other|].
  intros users. apply emits_bind_lift. intros excl0 Hexcl.
  apply emits_bind_lift. intros v _.
  destruct (negb (in_levels v)).
  { apply emits_bind; [apply emits_logging|].
    intros _ tbl o tbl' tr [= <- <- <-]. constructor. }
  apply emits_bind; [apply emits_logging|]. intros _.
  apply emits_bind; [apply emits_emit, P_other; reflexivity|]. intros _.
  apply emits_bind; [apply emits_fails|]. intros _.
  cbv zeta. apply emits_bind.
  - apply emits_for_each. intros g c. apply emits_group_body.
    intros Hin. exact (Hg _ _ Hexcl Hin).
  - intros c. apply emits_bind; [apply emits_logging|]. intros _.
    apply emits_bind; [apply emits_logging|]. intros _. apply emits_ret.
Qed.

End events.

(** Whatever level is configured, a membership is only ever created with
    the level [DEVELOPER_ACCESS]. *)
Lemma creations_use_developer_access
    DEFAULT_URL int_of_str environ gl tbl o tbl' tr :
  main DEFAULT_URL int_of_str environ gl tbl = (o, tbl', tr) ->
  forall g user l, In (Call (MembersCreate g user l)) tr -> l = DEVELOPER_ACCESS.
Proof.
  intros H g user l Hin.
  assert (F : Forall (fun e => forall g user l,
                        e = Call (MembersCreate g user l) -> l = DEVELOPER_ACCESS) tr).
  { revert H. apply emits_main.
    - intros [[]|] He; simpl in He; try discriminate; intros ? ? ? [=].
    - intros excl0 g0 _ _. split; [intros ? ? ? [=]|].
      intros user0. split; [intros ? ? ? [=]|intros ? ? ? [= _ _ <-]; reflexivity]. }
  rewrite List.Forall_forall in F. exact (F _ Hin _ _ _ eq_refl).
Qed.

(** ** The exclusion list *)

Lemma insert_sorted_in v x l :
  py_in v (insert_sorted x l) = py_eq v (PyStr x) || py_in v l.
Proof.
  induction l as [|y l IH]; simpl; [reflexivity|].
  destruct (String.compare x y) eqn:E; simpl.
  - apply String.compare_eq_iff in E. subst y.
    destruct (py_eq v (PyStr x)); reflexivity.
  - reflexivity.
  - rewrite IH. destruct (py_eq v (PyStr x)), (py_eq v (PyStr y)); reflexivity.
Qed.

(** Sorting and removing duplicates does not change what the list holds. *)
Lemma py_in_sorted_set v l : py_in v (sorted_set l) = py_in v l.
Proof.
  induction l as [|x l IH]; simpl; [reflexivity|].
  rewrite insert_sorted_in, IH. reflexivity.
Qed.

(** An identifier that is a number is never found in the exclusion list:
    the list holds strings, and a number is not equal to any string. *)
Remark py_in_number z l : py_in (PyInt z) l = false.
Proof. induction l as [|x l IH]; simpl; auto. Qed.

(** C2: with [GITLAB_EXCLUDE_GROUPS=1] the exclusion list is [['1']], a
    list of strings, while the identifier of a group is an integer: line 187
    evaluates [1 in ['1']], which is false.  The group with identifier 1 is
    not skipped: its projects are listed, the membership of [alice] is
    looked up and created, and the group is counted as a matching group. *)
Theorem excluded_numeric_group_is_processed :
  exclude_groups environ_exclude_one = Return ["1"]
  /\ map group.id (groups_list gl_demo) = [PyInt 1]
  /\ py_in (PyInt 1) (sorted_set ["1"]) = false
  /\ main "https://gitlab.com" decimal environ_exclude_one gl_demo []
     = (Return {| success_u := 1; success_g := 1; total_g := 1 |},
        [ {| m_group := PyInt 1; m_user := "alice"; m_level := 30 |} ],
        [ Call (Auth PyNone (PyStr "glpat")); Log INFO (LoggedIn PyNone);
          Call (UsersGet "alice"); Log INFO (UserFound "alice");
          Log INFO (AccessLevelSet "Developer");
          Call GroupsList;
          Call (GroupsGet (PyInt 1)); Call (ProjectsList (PyInt 1));
          Log INFO (WorkWithGroup "org/team");
          Call (MembersGet (PyInt 1) "alice");
          Call (MembersCreate (PyInt 1) "alice" 30);
          Log INFO (AddedUser "alice" "org/team");
          Log INFO (Updated 1 1 1); Log INFO Done ]).
Proof. repeat split; vm_compute; reflexivity. Qed.

(** ** Existing memberships *)

Lemma has_member_app tbl more g user :
  has_member (tbl ++ more) g user = has_member tbl g user || has_member more g user.
Proof. apply existsb_app. Qed.

Lemma has_member_row g user l : 
  has_member [ {| m_group := g; m_user := user; m_level := l |} ] g user = true.
Proof.
  unfold has_member. simpl. rewrite bool_decide_eq_true_2 by reflexivity.
  rewrite String.eqb_refl. reflexivity.
Qed.

Lemma lookup_found_extends gl tbl more g user :
  member_lookup gl tbl g user = Found tt ->
  member_lookup gl (tbl ++ more) g user = Found tt.
Proof.
  unfold member_lookup. destruct (members_fault gl g user); [auto|].
  rewrite has_member_app. destruct (has_member tbl g user); [reflexivity|discriminate].
Qed.

Lemma lookup_404_table gl tbl g user :
  consistent gl -> member_lookup gl tbl g user = GetError 404 ->
  members_fault gl g user = None /\ has_member tbl g user = false.
Proof.
  intros C. unfold member_lookup. specialize (C g user).
  destruct (members_fault gl g user) as [a|]; [intros ->; contradiction|].
  destruct (has_member tbl g user); [discriminate|auto].
Qed.

Lemma lookup_error_stable gl tbl tbl2 g user code :
  code ≠ 404 -> member_lookup gl tbl g user = GetError code ->
  member_lookup gl tbl2 g user = GetError code.
Proof.
  intros Hc. unfold member_lookup. destruct (members_fault gl g user); [auto|].
  destruct (has_member tbl g user); intros [=]. congruence.
Qed.

Lemma lookup_other_stable gl tbl tbl2 g user :
  member_lookup gl tbl g user = OtherException ->
  member_lookup gl tbl2 g user = OtherException.
Proof.
  unfold member_lookup. destruct (members_fault gl g user); [auto|].
  destruct (has_member tbl g user); discriminate.
Qed.

(** The body of the loop over the users, case by case. *)
Lemma user_body_eq gl g user n tbl :
  user_body gl g user n tbl =
  match member_lookup gl tbl (group.id g) user with
  | Found _ => (Return n, tbl, [Call (MembersGet (group.id g) user)])
  | GetError code =>
      if code =? 404 then
        if create_fails gl (group.id g) user
        then (Uncaught RemoteError, tbl,
              [ Call (MembersGet (group.id g) user);
                Call (MembersCreate (group.id g) user DEVELOPER_ACCESS) ])
        else (Return (S n),
              tbl ++ [ {| m_group := group.id g; m_user := user;
                          m_level := DEVELOPER_ACCESS |} ],
              [ Call (MembersGet (group.id g) user);
                Call (MembersCreate (group.id g) user DEVELOPER_ACCESS);
                Log INFO (AddedUser user (group.full_path g)) ])
      else (Return n, tbl,
            [ Call (MembersGet (group.id g) user);
              Log ERROR (ErrorGetUser user (group.full_path g)) ])
  | OtherException =>
      (SysExit, tbl,
       [ Call (MembersGet (group.id g) user);
         Log FATAL (ErrorInGroup (group.full_path g)) ])
  end.
Proof.
  unfold user_body, bind, members_get.
  destruct (member_lookup gl tbl (group.id g) user) as [[]|code|]; try reflexivity.
  destruct (code =? 404); [|reflexivity].
  unfold members_create. destruct (create_fails gl (group.id g) user); reflexivity.
Qed.

(** *** The table only grows *)

Lemma grows_quiet {A} (m : M A) : quiet m -> grows m.
Proof. intros Hm tbl o tbl' tr H. apply Hm in H as [-> _]. reflexivity. Qed.

Lemma grows_bind {A B} (m : M A) (k : A -> M B) :
  grows m -> (forall a, grows (k a)) -> grows (bind m k).
Proof.
  intros Hm Hk tbl o tbl' tr H. bind_cases H.
  - etrans; [exact (Hm _ _ _ _ E1)|exact (Hk _ _ _ _ _ E2)].
  - exact (Hm _ _ _ _ E1).
  - exact (Hm _ _ _ _ E1).
Qed.

Lemma grows_for_each {A S} (body : A -> S -> M S) (l : list A) :
  (forall x s, grows (body x s)) -> forall s, grows (for_each l body s).
Proof.
  intros Hb. induction l as [|x l IH]; intros s; simpl.
  - apply grows_quiet, quiet_ret.
  - apply grows_bind; [apply Hb|exact IH].
Qed.

Lemma grows_user_body gl g user n : grows (user_body gl g user n).
Proof.
  intros tbl o tbl' tr. rewrite user_body_eq.
  destruct (member_lookup gl tbl (group.id g) user) as [[]|code|].
  - intros [= <- <- <-]. reflexivity.
  - destruct (code =? 404); [|intros [= <- <- <-]; reflexivity].
    destruct (create_fails gl (group.id g) user); intros [= <- <- <-].
    + reflexivity.
    + apply prefix_app_r. reflexivity.
  - intros [= <- <- <-]. reflexivity.
Qed.

Lemma grows_emit e : grows (emit e).
Proof. intros tbl o tbl' tr [= <- <- <-]. reflexivity. Qed.

Lemma grows_blank_group gl sb g : grows (blank_group gl sb g).
Proof.
  unfold blank_group. destruct (truthy sb).
  - apply grows_bind; [apply grows_emit|]. intros _.
    apply grows_bind; [apply grows_quiet, quiet_fails|]. intros _.
    apply grows_quiet, quiet_ret.
  - apply grows_quiet, quiet_ret.
Qed.

Lemma grows_logging_ret {A} l msg (a : A) : grows (logging l msg >> ret a).
Proof. intros tbl o tbl' tr [= <- <- <-]. reflexivity. Qed.

Lemma grows_group_body gl excl sb sn users g c :
  grows (group_body gl excl sb sn users g c).
Proof.
  unfold group_body.
  apply grows_bind; [apply grows_emit|]. intros _.
  apply grows_bind; [apply grows_quiet, quiet_fails|]. intros _.
  cbv zeta. destruct (py_in (group.id g) excl); [apply grows_logging_ret|].
  destruct (truthy sn && is_not_none (group.parent_id g)); [apply grows_logging_ret|].
  apply grows_bind; [apply grows_blank_group|]. intros [|]; [apply grows_logging_ret|].
  apply grows_bind; [apply grows_quiet, quiet_logging|]. intros _.
  apply grows_bind; [|intros n; apply grows_quiet, quiet_ret].
  apply grows_for_each. intros user n. apply grows_user_body.
Qed.

Lemma grows_main DEFAULT_URL int_of_str environ gl :
  grows (main DEFAULT_URL int_of_str environ gl).
Proof.
  unfold main.
  apply grows_bind; [apply grows_quiet, quiet_required|]. intros gitlab_token.
  apply grows_bind; [apply grows_quiet, quiet_login_gitlab|]. intros _.
  apply grows_bind; [apply grows_quiet, quiet_lift|]. intros users0.
  apply grows_bind; [apply grows_quiet, quiet_check_users|]. intros users.
  apply grows_bind; [apply grows_quiet, quiet_lift|]. intros exclude0.
  apply grows_bind; [apply grows_quiet, quiet_lift|]. intros v.
  destruct (negb (in_levels v)).
  { apply grows_quiet, quiet_bind; [apply quiet_logging|intros _; apply quiet_sys_exit]. }
  apply grows_bind; [apply grows_quiet, quiet_logging|]. intros _.
  apply grows_bind; [apply grows_emit|]. intros _.
  apply grows_bind; [apply grows_quiet, quiet_fails|]. intros _.
  cbv zeta. apply grows_bind.
  - apply grows_for_each. intros g c. apply grows_group_body.
  - intros c. apply grows_quiet.
    apply quiet_bind; [apply quiet_logging|]. intros _.
    apply quiet_bind; [apply quiet_logging|]. intros _. apply quiet_ret.
Qed.

(** *** Running a second time *)

Lemma related_eq_refl {A} (o : outcome A) : related eq o o.
Proof. destruct o; simpl; auto. Qed.

Lemma indep_ret {A} (a : A) : indep (ret a).
Proof. exists (Return a), []. reflexivity. Qed.

Lemma indep_lift {A} (o : outcome A) : indep (lift o).
Proof. exists o, []. reflexivity. Qed.

Lemma indep_emit e : indep (emit e).
Proof. exists (Return tt), [e]. reflexivity. Qed.

Lemma indep_sys_exit {A} : indep (@sys_exit A).
Proof. exists SysExit, []. reflexivity. Qed.

Lemma indep_bind {A B} (m : M A) (k : A -> M B) :
  indep m -> (forall a, indep (k a)) -> indep (bind m k).
Proof.
  intros (o & tr & Hm) Hk. destruct o as [a| |e].
  - destruct (Hk a) as (o2 & tr2 & Hk2). exists o2, (tr ++ tr2).
    intros tbl. unfold bind. rewrite Hm, Hk2. reflexivity.
  - exists SysExit, tr. intros tbl. unfold bind. rewrite Hm. reflexivity.
  - exists (Uncaught e), tr. intros tbl. unfold bind. rewrite Hm. reflexivity.
Qed.

Lemma indep_required e : indep (required e).
Proof.
  unfold required. destruct (is_not_none (env.value e)).
  - apply indep_ret.
  - apply indep_bind; [apply indep_emit|intros _; apply indep_sys_exit].
Qed.

Lemma indep_login_gitlab gl url token : indep (login_gitlab gl url token).
Proof.
  unfold login_gitlab. apply indep_bind; [apply indep_emit|].
  intros _. destruct (auth gl url token).
  - apply indep_emit.
  - apply indep_bind; [apply indep_emit|intros _; apply indep_sys_exit].
  - apply indep_bind; [apply indep_emit|intros _; apply indep_sys_exit].
Qed.

Lemma indep_check_users gl users : indep (check_users gl users).
Proof.
  unfold check_users.
  destruct (check_users_from gl (length users) 0 users) as [[o tr]|].
  - exists o, tr. reflexivity.
  - exists (Return users), []. reflexivity.
Qed.

Lemma indep_fails b : indep (fails b).
Proof. destruct b; [apply indep_lift|apply indep_ret]. Qed.

Lemma indep_blank_group gl sb g : indep (blank_group gl sb g).
Proof.
  unfold blank_group. destruct (truthy sb).
  - apply indep_bind; [apply indep_emit|intros _].
    apply indep_bind; [apply indep_fails|intros _; apply indep_ret].
  - apply indep_ret.
Qed.

Lemma replays_indep {A} (m : M A) : indep m -> replays m m eq.
Proof.
  intros (o & tr & Hm) tbl o' tbl' tr' H. rewrite Hm in H.
  injection H as <- <- <-. split; [reflexivity|].
  intros more _. exists o, tr. split; [apply Hm|apply related_eq_refl].
Qed.

Lemma replays_ret {A} (Q : A -> A -> Prop) a a2 :
  Q a a2 -> replays (ret a) (ret a2) Q.
Proof.
  intros HQ tbl o tbl' tr [= <- <- <-]. split; [reflexivity|].
  intros more _. exists (Return a2), []. split; [reflexivity|exact HQ].
Qed.

Lemma replays_emit e e2 : replays (emit e) (emit e2) (fun _ _ => True).
Proof.
  intros tbl o tbl' tr [= <- <- <-]. split; [reflexivity|].
  intros more _. exists (Return tt), [e2]. split; [reflexivity|exact I].
Qed.

Lemma replays_sys_exit {A} (Q : A -> A -> Prop) : replays sys_exit sys_exit Q.
Proof.
  intros tbl o tbl' tr [= <- <- <-]. split; [reflexivity|].
  intros more _. exists SysExit, []. split; [reflexivity|exact I].
Qed.

Lemma replays_bind {A B} (m1 m2 : M A) (k1 k2 : A -> M B)
    (Q : A -> A -> Prop) (R : B -> B -> Prop) :
  replays m1 m2 Q ->
  (forall a a2, Q a a2 -> replays (k1 a) (k2 a2) R) ->
  replays (bind m1 k1) (bind m2 k2) R.
Proof.
  intros H1 H2 tbl o tbl' tr E. bind_cases E.
  - destruct (H1 _ _ _ _ E1) as [P1 R1].
    destruct (R1 [] (or_introl eq_refl)) as (o0 & tr0 & _ & Rel0).
    destruct o0 as [a0| |]; simpl in Rel0; try contradiction.
    destruct (H2 _ _ Rel0 _ _ _ _ E2) as [P2 _].
    split; [etrans; eassumption|].
    intros more Hmore. destruct P2 as [ext ->].
    destruct (R1 (ext ++ more) (or_introl eq_refl)) as (o2 & tr2' & Em2 & Rel).
    destruct o2 as [a2| |]; simpl in Rel; try contradiction.
    destruct (H2 _ _ Rel _ _ _ _ E2) as [_ R2].
    destruct (R2 more Hmore) as (o3 & tr3 & Ek2 & Rel3).
    exists o3, (tr2' ++ tr3). split; [|exact Rel3].
    rewrite <- app_assoc. rewrite (bind_Return _ _ _ _ _ _ Em2).
    rewrite app_assoc, Ek2. reflexivity.
  - destruct (H1 _ _ _ _ E1) as [P1 R1]. split; [exact P1|].
    intros more [Hr| ->]; [discriminate|].
    destruct (R1 [] (or_intror eq_refl)) as (o2 & tr2 & Em2 & Rel).
    destruct o2; simpl in Rel; try contradiction.
    exists SysExit, tr2. split; [apply bind_SysExit; exact Em2|exact I].
  - destruct (H1 _ _ _ _ E1) as [P1 R1]. split; [exact P1|].
    intros more [Hr| ->]; [discriminate|].
    destruct (R1 [] (or_intror eq_refl)) as (o2 & tr2 & Em2 & Rel).
    destruct o2 as [|   |e2]; simpl in Rel; try contradiction. subst e2.
    exists (Uncaught e), tr2. split; [apply bind_Uncaught; exact Em2|reflexivity].
Qed.

Lemma replays_for_each {A S} (body1 body2 : A -> S -> M S)
    (Q : S -> S -> Prop) (l : list A) :
  (forall x s s2, Q s s2 -> replays (body1 x s) (body2 x s2) Q) ->
  forall s s2, Q s s2 -> replays (for_each l body1 s) (for_each l body2 s2) Q.
Proof.
  intros Hb. induction l as [|x l IH]; intros s s2 HQ; simpl.
  - apply replays_ret, HQ.
  - apply (replays_bind _ _ _ _ Q); [apply Hb, HQ|exact IH].
Qed.

(** A user already looked at is not touched again: on the table the first
    pass left, or on any table that extends it, the second pass over the
    same user finds the membership, or meets the same failure. *)
Lemma replays_user_body gl g user n n2 :
  consistent gl ->
  replays (user_body gl g user n) (user_body gl g user n2) (fun _ r => r = n2).
Proof.
  intros C tbl o tbl' tr E. rewrite user_body_eq in E.
  destruct (member_lookup gl tbl (group.id g) user) as [[]|code|] eqn:L.
  - injection E as <- <- <-. split; [reflexivity|]. intros more _.
    eexists _, _. rewrite user_body_eq, (lookup_found_extends _ _ _ _ _ L).
    split; reflexivity.
  - destruct (code =? 404) eqn:Ec.
    + apply Z.eqb_eq in Ec. subst code.
      destruct (lookup_404_table _ _ _ _ C L) as [Hf Hm].
      destruct (create_fails gl (group.id g) user) eqn:Ef; injection E as <- <- <-.
      * split; [reflexivity|]. intros more [Hr| ->]; [discriminate|].
        rewrite app_nil_r. eexists _, _. rewrite user_body_eq, L. simpl.
        rewrite Ef. split; reflexivity.
      * split; [apply prefix_app_r; reflexivity|]. intros more _.
        eexists _, _. rewrite user_body_eq.
        assert (member_lookup gl
                  ((tbl ++ [ {| m_group := group.id g; m_user := user;
                                m_level := DEVELOPER_ACCESS |} ]) ++ more)
                  (group.id g) user = Found tt) as ->.
        { unfold member_lookup. rewrite Hf, !has_member_app, has_member_row.
          rewrite orb_true_r. reflexivity. }
        split; reflexivity.
    + injection E as <- <- <-. split; [reflexivity|]. intros more _.
      eexists _, _. rewrite user_body_eq.
      rewrite (lookup_error_stable gl tbl (tbl ++ more) _ _ code); [|lia|exact L].
      rewrite Ec. split; reflexivity.
  - injection E as <- <- <-. split; [reflexivity|]. intros more _.
    eexists _, _. rewrite user_body_eq.
    rewrite (lookup_other_stable gl tbl (tbl ++ more) _ _ L).
    split; [reflexivity|exact I].
Qed.

Lemma replays_logging_ret {A} (Q : A -> A -> Prop) l msg l2 msg2 a a2 :
  Q a a2 -> replays (logging l msg >> ret a) (logging l2 msg2 >> ret a2) Q.
Proof.
  intros HQ. apply (replays_bind _ _ _ _ (fun _ _ => True)); [apply replays_emit|].
  intros _ _ _. apply replays_ret, HQ.
Qed.

Lemma replays_group_body gl excl sb sn users (k : nat) g c c2 :
  consistent gl -> success_u c2 = k ->
  replays (group_body gl excl sb sn users g c)
          (group_body gl excl sb sn users g c2)
          (fun _ r => success_u r = k).
Proof.
  intros C Hk. unfold group_body.
  apply (replays_bind _ _ _ _ (fun _ _ => True)); [apply replays_emit|].
  intros _ _ _.
  apply (replays_bind _ _ _ _ eq); [apply replays_indep, indep_fails|].
  intros _ _ _. cbv zeta.
  destruct (py_in (group.id g) excl); [apply replays_logging_ret; exact Hk|].
  destruct (truthy sn && is_not_none (group.parent_id g));
    [apply replays_logging_ret; exact Hk|].
  apply (replays_bind _ _ _ _ eq); [apply replays_indep, indep_blank_group|].
  intros blank ? <-. destruct blank; [apply replays_logging_ret; exact Hk|].
  apply (replays_bind _ _ _ _ (fun _ _ => True)); [apply replays_emit|].
  intros _ _ _.
  apply (replays_bind _ _ _ _ (fun _ r => r = success_u c2)).
  - apply replays_for_each; [|reflexivity].
    intros user s s2 ->. apply replays_user_body, C.
  - intros n n2 ->. apply replays_ret. exact Hk.
Qed.

Lemma replays_main DEFAULT_URL int_of_str environ gl :
  consistent gl ->
  replays (main DEFAULT_URL int_of_str environ gl)
          (main DEFAULT_URL int_of_str environ gl)
          (fun _ c => success_u c = 0%nat).
Proof.
  intros C. unfold main.
  apply (replays_bind _ _ _ _ eq); [apply replays_indep, indep_required|].
  intros gitlab_token ? <-.
  apply (replays_bind _ _ _ _ eq); [apply replays_indep, indep_login_gitlab|].
  intros _ _ _.
  apply (replays_bind _ _ _ _ eq); [apply replays_indep, indep_lift|].
  intros users0 ? <-.
  apply (replays_bind _ _ _ _ eq); [apply replays_indep, indep_check_users|].
  intros users ? <-.
  apply (replays_bind _ _ _ _ eq); [apply replays_indep, indep_lift|].
  intros exclude0 ? <-.
  apply (replays_bind _ _ _ _ eq); [apply replays_indep, indep_lift|].
  intros v ? <-.
  destruct (negb (in_levels v)).
  { apply (replays_bind _ _ _ _ (fun _ _ => True)); [apply replays_emit|].
    intros _ _ _. apply replays_sys_exit. }
  apply (replays_bind _ _ _ _ (fun _ _ => True)); [apply replays_emit|].
  intros _ _ _.
  apply (replays_bind _ _ _ _ (fun _ _ => True)); [apply replays_emit|].
  intros _ _ _.
  apply (replays_bind _ _ _ _ eq); [apply replays_indep, indep_fails|].
  intros _ _ _. cbv zeta.
  apply (replays_bind _ _ _ _ (fun _ c => success_u c = 0%nat)).
  - apply replays_for_each; [|reflexivity].
    intros g c c2 Hc. apply replays_group_body; [exact C|exact Hc].
  - intros c c2 Hc.
    apply (replays_bind _ _ _ _ (fun _ _ => True)); [apply replays_emit|].
    intros _ _ _.
    apply (replays_bind _ _ _ _ (fun _ _ => True)); [apply replays_emit|].
    intros _ _ _. apply replays_ret, Hc.
Qed.

(** C6: when the lookup finds the membership the only call made for that
    group and user is the lookup, and the table is left as it is; a run
    only ever appends rows to the table, so no existing row is changed or
    removed; and a second run on the table the first run left, against an
    instance that reports a membership as missing only when it has no such
    row, ends the way the first did, leaves the table untouched and, when
    it returns, counts zero users added. *)
Theorem existing_memberships_untouched
    (DEFAULT_URL : string) (int_of_str : string -> option Z)
    (environ : gmap string string) (gl : gitlab) :
  (forall g user n tbl,
     member_lookup gl tbl (group.id g) user = Found tt ->
     user_body gl g user n tbl
     = (Return n, tbl, [Call (MembersGet (group.id g) user)]))
  /\ (forall tbl o tbl' tr,
        main DEFAULT_URL int_of_str environ gl tbl = (o, tbl', tr) ->
        tbl `prefix_of` tbl')
  /\ (consistent gl ->
      forall tbl o tbl' tr,
        main DEFAULT_URL int_of_str environ gl tbl = (o, tbl', tr) ->
        exists o2 tr2,
          main DEFAULT_URL int_of_str environ gl tbl' = (o2, tbl', tr2)
          /\ related (fun _ c => success_u c = 0%nat) o o2).
Proof.
  split; [|split].
  - intros g user n tbl L. rewrite user_body_eq, L. reflexivity.
  - exact (grows_main DEFAULT_URL int_of_str environ gl).
  - intros C tbl o tbl' tr H.
    destruct (replays_main DEFAULT_URL int_of_str environ gl C _ _ _ _ H) as [_ R].
    destruct (R [] (or_intror eq_refl)) as (o2 & tr2 & H2 & Rel).
    rewrite app_nil_r in H2. exists o2, tr2. split; assumption.
Qed.

Lemma existing_memberships_untouched_witness :
  let row := {| m_group := PyInt 1; m_user := "alice"; m_level := 30 |} in
  user_body gl_demo (group.mk (PyInt 1) "org/team" PyNone ["site"]) "alice" 0 [row]
    = (Return 0%nat, [row], [Call (MembersGet (PyInt 1) "alice")])
  /\ [] `prefix_of` [row]
  /\ exists o2 tr2,
       main "https://gitlab.com" decimal environ_maintainer gl_demo [row]
         = (o2, [row], tr2)
       /\ related (fun _ c => success_u c = 0%nat)
            (Return {| success_u := 1; success_g := 1; total_g := 1 |}) o2.
Proof.
  intros row.
  destruct (existing_memberships_untouched "https://gitlab.com" decimal
              environ_maintainer gl_demo) as (Hstep & Hgrow & Hagain).
  split; [|split].
  - apply Hstep. vm_compute. reflexivity.
  - apply (Hgrow [] (Return {| success_u := 1; success_g := 1; total_g := 1 |})
             [row]
             [ Call (Auth PyNone (PyStr "glpat")); Log INFO (LoggedIn PyNone);
               Call (UsersGet "alice"); Log INFO (UserFound "alice");
               Log INFO (AccessLevelSet "Mainteiner");
               Call GroupsList;
               Call (GroupsGet (PyInt 1)); Call (ProjectsList (PyInt 1));
               Log INFO (WorkWithGroup "org/team");
               Call (MembersGet (PyInt 1) "alice");
               Call (MembersCreate (PyInt 1) "alice" 30);
               Log INFO (AddedUser "alice" "org/team");
               Log INFO (Updated 1 1 1); Log INFO Done ]).
    vm_compute. reflexivity.
  - apply (Hagain ltac:(intros g user; discriminate) []
             (Return {| success_u := 1; success_g := 1; total_g := 1 |})
             [row]
             [ Call (Auth PyNone (PyStr "glpat")); Log INFO (LoggedIn PyNone);
               Call (UsersGet "alice"); Log INFO (UserFound "alice");
               Log INFO (AccessLevelSet "Mainteiner");
               Call GroupsList;
               Call (GroupsGet (PyInt 1)); Call (ProjectsList (PyInt 1));
               Log INFO (WorkWithGroup "org/team");
               Call (MembersGet (PyInt 1) "alice");
               Call (MembersCreate (PyInt 1) "alice" 30);
               Log INFO (AddedUser "alice" "org/team");
               Log INFO (Updated 1 1 1); Log INFO Done ]).
    vm_compute. reflexivity.
Defined.

(** The second run of the example, in full: the lookup finds the membership
    made by the first run and nothing is created. *)
Example second_run_adds_nobody :
  main "https://gitlab.com" decimal environ_maintainer gl_demo
    [ {| m_group := PyInt 1; m_user := "alice"; m_level := 30 |} ]
  = (Return {| success_u := 0; success_g := 1; total_g := 1 |},
     [ {| m_group := PyInt 1; m_user := "alice"; m_level := 30 |} ],
     [ Call (Auth PyNone (PyStr "glpat")); Log INFO (LoggedIn PyNone);
       Call (UsersGet "alice"); Log INFO (UserFound "alice");
       Log INFO (AccessLevelSet "Mainteiner");
       Call GroupsList;
       Call (GroupsGet (PyInt 1)); Call (ProjectsList (PyInt 1));
       Log INFO (WorkWithGroup "org/team");
       Call (MembersGet (PyInt 1) "alice");
       Log INFO (Updated 0 1 1); Log INFO Done ]).
Proof. vm_compute. reflexivity. Qed.

(** * Further properties *)

(** ** The loop over the users, as a recursion *)

Lemma check_users_from_end gl fuel i users :
  users !! i = None -> check_users_from gl fuel i users = Some (Return users, []).
Proof. intros H. destruct fuel; simpl; rewrite H; reflexivity. Qed.

Lemma outcome_map_app {A} (pre : list A) x (o : outcome (list A)) :
  outcome_map (app (pre ++ [x])) o = outcome_map (app pre) (outcome_map (cons x) o).
Proof. destruct o; simpl; [rewrite <- app_assoc|..]; reflexivity. Qed.

(** With [pre] behind the index and [suf] ahead of it, the loop does to
    [suf] what [walk] does, and leaves [pre] alone. *)
Lemma check_users_from_walk gl fuel : forall pre suf,
  (length suf <= fuel)%nat ->
  check_users_from gl fuel (length pre) (pre ++ suf)
  = Some (outcome_map (app pre) (walk gl suf).1, (walk gl suf).2).
Proof.
  induction fuel as [|fuel IH]; intros pre suf Hlen.
  - destruct suf; [|simpl in Hlen; lia].
    rewrite check_users_from_end; [reflexivity|].
    apply lookup_ge_None. rewrite app_nil_r. lia.
  - destruct suf as [|x rest].
    { rewrite check_users_from_end; [reflexivity|].
      apply lookup_ge_None. rewrite app_nil_r. lia. }
    rewrite (check_users_from_step gl fuel (length pre) (pre ++ x :: rest) x)
      by (apply list_lookup_middle; reflexivity).
    simpl in Hlen. simpl walk.
    destruct (users_get gl x) as [username|code|]; [| |reflexivity].
    + replace (S (length pre)) with (length (pre ++ [x]))
        by (rewrite length_app; simpl; lia).
      replace (pre ++ x :: rest) with ((pre ++ [x]) ++ rest)
        by (rewrite <- app_assoc; reflexivity).
      rewrite IH by lia. destruct (walk gl rest) as [o tr]. simpl.
      rewrite outcome_map_app. reflexivity.
    + destruct (code =? 404); [|reflexivity].
      rewrite delete_middle. destruct rest as [|y rest'].
      * rewrite check_users_from_end; [reflexivity|].
        apply lookup_ge_None. rewrite app_nil_r. lia.
      * replace (S (length pre)) with (length (pre ++ [y]))
          by (rewrite length_app; simpl; lia).
        replace (pre ++ y :: rest') with ((pre ++ [y]) ++ rest')
          by (rewrite <- app_assoc; reflexivity).
        simpl in Hlen. rewrite IH by lia.
        destruct (walk gl rest') as [o tr]. simpl.
        rewrite outcome_map_app. reflexivity.
Qed.

Lemma check_users_walk gl users tbl :
  check_users gl users tbl = ((walk gl users).1, tbl, (walk gl users).2).
Proof.
  unfold check_users.
  pose proof (check_users_from_walk gl (length users) [] users) as H.
  simpl in H. rewrite H by lia.
  destruct (walk gl users) as [[]]; reflexivity.
Qed.

Lemma unknown_404 gl user : unknown gl user = true <-> users_get gl user = GetError 404.
Proof.
  unfold unknown. destruct (users_get gl user) as [|code|]; split;
    try discriminate.
  - intros H. apply Z.eqb_eq in H. now subst.
  - intros [= ->]. reflexivity.
Qed.

Lemma walk_found gl x rest username :
  users_get gl x = Found username ->
  walk gl (x :: rest)
  = (outcome_map (cons x) (walk gl rest).1,
     Call (UsersGet x) :: Log INFO (UserFound username) :: (walk gl rest).2).
Proof. intros H. simpl. rewrite H. destruct (walk gl rest). reflexivity. Qed.

Lemma walk_unknown_last gl x :
  unknown gl x = true ->
  walk gl [x] = (Return [], [Call (UsersGet x); Log ERROR (UserIgnored x)]).
Proof. intros H%unknown_404. simpl. rewrite H. reflexivity. Qed.

Lemma walk_unknown_next gl x y rest :
  unknown gl x = true ->
  walk gl (x :: y :: rest)
  = (outcome_map (cons y) (walk gl rest).1,
     Call (UsersGet x) :: Log ERROR (UserIgnored x) :: (walk gl rest).2).
Proof.
  intros H%unknown_404. cbn [walk]. rewrite H. simpl.
  destruct (walk gl rest). reflexivity.
Qed.

Lemma walk_stops gl x rest :
  known gl x = false -> unknown gl x = false ->
  returned (walk gl (x :: rest)).1 = false
  /\ (walk gl (x :: rest)).2 `sublist_of` [Call (UsersGet x); Log FATAL (ErrorCheckUser x)].
Proof.
  unfold known, unknown. simpl.
  destruct (users_get gl x) as [|code|]; [discriminate| |].
  - intros _ ->. split; [reflexivity|]. simpl. reflexivity.
  - intros _ _. split; [reflexivity|]. simpl. apply sublist_skip, sublist_nil_l.
Qed.

Lemma known_or_unknown gl x :
  (exists username, users_get gl x = Found username) \/ unknown gl x = true
  \/ (known gl x = false /\ unknown gl x = false).
Proof.
  unfold known, unknown. destruct (users_get gl x) as [username|code|]; eauto.
  destruct (code =? 404); auto.
Qed.

(** Induction on a list, one or two elements at a time. *)
Lemma list_ind2 {A} (P : list A -> Prop) :
  P [] -> (forall x, P [x]) ->
  (forall x y l, P l -> P (y :: l) -> P (x :: y :: l)) ->
  forall l, P l.
Proof.
  intros H0 H1 H2 l. assert (H : P l /\ forall x, P (x :: l)); [|apply H].
  induction l as [|y l [IHl IHyl]]; split; auto.
Qed.

Lemma walk_sublist gl : forall l us,
  (walk gl l).1 = Return us -> us `sublist_of` l.
Proof.
  induction l as [|x|x y l IHl IHyl] using list_ind2; intros us.
  - intros [= <-]. constructor.
  - destruct (known_or_unknown gl x) as [[n Hk]|[Hu|[Hk Hu]]].
    + rewrite (walk_found _ _ _ _ Hk). cbn [fst snd]. intros [= <-]. reflexivity.
    + rewrite (walk_unknown_last _ _ Hu). intros [= <-]. apply sublist_nil_l.
    + destruct (walk_stops gl x [] Hk Hu) as [Hr _]. intros E. rewrite E in Hr.
      discriminate.
  - destruct (known_or_unknown gl x) as [[n Hk]|[Hu|[Hk Hu]]].
    + rewrite (walk_found _ _ _ _ Hk). cbn [fst snd].
      destruct (walk gl (y :: l)).1 as [us'| |]; try discriminate.
      intros [= <-]. apply sublist_skip, IHyl. reflexivity.
    + rewrite (walk_unknown_next _ _ _ _ Hu). cbn [fst snd].
      destruct (walk gl l).1 as [us'| |]; try discriminate.
      intros [= <-]. apply sublist_cons, sublist_skip, IHl. reflexivity.
    + destruct (walk_stops gl x (y :: l) Hk Hu) as [Hr _]. intros E.
      rewrite E in Hr. discriminate.
Qed.

Lemma walk_dropped gl : forall l us,
  (walk gl l).1 = Return us ->
  forall u, u ∈ l -> u ∉ us -> unknown gl u = true.
Proof.
  induction l as [|x|x y l IHl IHyl] using list_ind2; intros us.
  - intros _ u Hu. inversion Hu.
  - destruct (known_or_unknown gl x) as [[n Hk]|[Hu|[Hk Hu]]].
    + rewrite (walk_found _ _ _ _ Hk). cbn [fst snd]. intros [= <-] u Hin Hnot.
      contradiction.
    + intros _ u Hin _. apply list_elem_of_singleton in Hin. now subst.
    + destruct (walk_stops gl x [] Hk Hu) as [Hr _]. intros E. rewrite E in Hr.
      discriminate.
  - destruct (known_or_unknown gl x) as [[n Hk]|[Hu|[Hk Hu]]].
    + rewrite (walk_found _ _ _ _ Hk). cbn [fst snd].
      destruct (walk gl (y :: l)).1 as [us'| |]; try discriminate.
      intros [= <-] u Hin Hnot. rewrite not_elem_of_cons in Hnot.
      destruct Hnot as [Hne Hnot]. apply elem_of_cons in Hin as [->|Hin];
        [contradiction|].
      exact (IHyl _ eq_refl u Hin Hnot).
    + rewrite (walk_unknown_next _ _ _ _ Hu). cbn [fst snd].
      destruct (walk gl l).1 as [us'| |]; try discriminate.
      intros [= <-] u Hin Hnot. rewrite not_elem_of_cons in Hnot.
      destruct Hnot as [Hne Hnot].
      apply elem_of_cons in Hin as [->|Hin]; [exact Hu|].
      apply elem_of_cons in Hin as [->|Hin]; [contradiction|].
      exact (IHl _ eq_refl u Hin Hnot).
    + destruct (walk_stops gl x (y :: l) Hk Hu) as [Hr _]. intros E.
      rewrite E in Hr. discriminate.
Qed.

Lemma lookups_get x tr : lookups (Call (UsersGet x) :: tr) = x :: lookups tr.
Proof. reflexivity. Qed.

Lemma lookups_log l msg tr : lookups (Log l msg :: tr) = lookups tr.
Proof. reflexivity. Qed.

Lemma lookups_stop x tr :
  tr `sublist_of` [Call (UsersGet x); Log FATAL (ErrorCheckUser x)] ->
  lookups tr `sublist_of` [x].
Proof.
  intros H. apply sublist_cons_r in H as [H|(tr' & -> & H)].
  - apply sublist_cons_r in H as [H|(tr' & -> & H)].
    + apply sublist_nil_r in H as ->. apply sublist_nil_l.
    + apply sublist_nil_r in H as ->. apply sublist_nil_l.
  - apply sublist_cons_r in H as [H|(tr'' & -> & H)];
      apply sublist_nil_r in H as ->; reflexivity.
Qed.

(** Whatever the outcome, the users are looked up in the order of the list,
    every position at most once. *)
Lemma walk_lookups gl : forall l, lookups (walk gl l).2 `sublist_of` l.
Proof.
  induction l as [|x|x y l IHl IHyl] using list_ind2.
  - constructor.
  - destruct (known_or_unknown gl x) as [[n Hk]|[Hu|[Hk Hu]]].
    + rewrite (walk_found _ _ _ _ Hk). reflexivity.
    + rewrite (walk_unknown_last _ _ Hu). reflexivity.
    + destruct (walk_stops gl x [] Hk Hu) as [_ Hs]. exact (lookups_stop _ _ Hs).
  - destruct (known_or_unknown gl x) as [[n Hk]|[Hu|[Hk Hu]]].
    + rewrite (walk_found _ _ _ _ Hk). cbn [fst snd].
      rewrite lookups_get, lookups_log. apply sublist_skip, IHyl.
    + rewrite (walk_unknown_next _ _ _ _ Hu). cbn [fst snd].
      rewrite lookups_get, lookups_log. apply sublist_skip, sublist_cons, IHl.
    + destruct (walk_stops gl x (y :: l) Hk Hu) as [_ Hs].
      apply (sublist_inserts_r (y :: l) _ [x]), lookups_stop, Hs.
Qed.

Lemma no_adjacent_unknown_tail gl x l :
  no_adjacent_unknown gl (x :: l) = true -> no_adjacent_unknown gl l = true.
Proof.
  simpl. destruct l as [|y l]; [reflexivity|].
  intros H. apply andb_prop in H as [_ H]. exact H.
Qed.

Lemma walk_exact gl : forall l,
  Forall (fun u => known gl u || unknown gl u = true) l ->
  no_adjacent_unknown gl l = true ->
  (walk gl l).1 = Return (List.filter (known gl) l).
Proof.
  assert (Hfound : forall x n, users_get gl x = Found n -> known gl x = true).
  { intros x n H. unfold known. now rewrite H. }
  assert (Hdrop : forall x, unknown gl x = true -> known gl x = false).
  { intros x H%unknown_404. unfold known. now rewrite H. }
  induction l as [|x|x y l IHl IHyl] using list_ind2; intros Hall Hadj.
  - reflexivity.
  - destruct (known_or_unknown gl x) as [[n Hk]|[Hu|[Hk Hu]]].
    + rewrite (walk_found _ _ _ _ Hk). simpl. now rewrite (Hfound _ _ Hk).
    + rewrite (walk_unknown_last _ _ Hu). simpl. now rewrite (Hdrop _ Hu).
    + apply Forall_cons in Hall as [Hx _]. rewrite Hk, Hu in Hx. discriminate.
  - pose proof (no_adjacent_unknown_tail _ _ _ Hadj) as Hadj1.
    pose proof (no_adjacent_unknown_tail _ _ _ Hadj1) as Hadj2.
    apply Forall_cons in Hall as [Hx Hall1].
    pose proof Hall1 as Hall1'. apply Forall_cons in Hall1' as [Hy Hall2].
    destruct (known_or_unknown gl x) as [[n Hk]|[Hu|[Hk Hu]]].
    + rewrite (walk_found _ _ _ _ Hk), (IHyl Hall1 Hadj1).
      simpl. now rewrite (Hfound _ _ Hk).
    + rewrite (walk_unknown_next _ _ _ _ Hu), (IHl Hall2 Hadj2).
      cbn [no_adjacent_unknown] in Hadj. rewrite Hu in Hadj.
      destruct (unknown gl y) eqn:Huy; [discriminate|].
      rewrite orb_false_r in Hy.
      simpl. now rewrite (Hdrop _ Hu), Hy.
    + rewrite Hk, Hu in Hx. discriminate.
Qed.

(** X1: when the check of the users returns, the table is untouched, the
    users kept are a subsequence of the users given (nobody is added,
    nothing is reordered), every user that was dropped is one GitLab
    answered 404 for, and the users looked up form a subsequence of the
    list as well: each position is asked for at most once, in order. *)
Theorem check_users_keeps_order gl users tbl us tbl' tr :
  check_users gl users tbl = (Return us, tbl', tr) ->
  tbl' = tbl
  /\ us `sublist_of` users
  /\ (forall u, u ∈ users -> u ∉ us -> users_get gl u = GetError 404)
  /\ lookups tr `sublist_of` users.
Proof.
  rewrite check_users_walk. intros [= Ho <- <-].
  split; [reflexivity|]. split; [exact (walk_sublist _ _ _ Ho)|]. split.
  - intros u Hin Hnot. apply unknown_404. exact (walk_dropped _ _ _ Ho u Hin Hnot).
  - apply walk_lookups.
Qed.

Lemma check_users_keeps_order_witness :
  ["alice"; "zoe"] `sublist_of` ["alice"; "ghost"; "zoe"]
  /\ lookups [ Call (UsersGet "alice"); Log INFO (UserFound "alice");
               Call (UsersGet "ghost"); Log ERROR (UserIgnored "ghost") ]
     `sublist_of` ["alice"; "ghost"; "zoe"].
Proof.
  assert (H : check_users gl_ghost ["alice"; "ghost"; "zoe"] []
              = (Return ["alice"; "zoe"], [],
                 [ Call (UsersGet "alice"); Log INFO (UserFound "alice");
                   Call (UsersGet "ghost"); Log ERROR (UserIgnored "ghost") ])).
  { vm_compute. reflexivity. }
  destruct (check_users_keeps_order _ _ _ _ _ _ H) as (_ & Hsub & _ & Hlook).
  split; assumption.
Defined.

(** X2: when every user is either known to GitLab or answered with 404,
    and no two users next to each other in the list are both unknown, the
    check returns exactly the known users, in their order. *)
Theorem check_users_exact gl users tbl :
  Forall (fun u => known gl u || unknown gl u = true) users ->
  no_adjacent_unknown gl users = true ->
  exists tr,
    check_users gl users tbl = (Return (List.filter (known gl) users), tbl, tr).
Proof.
  intros Hall Hadj. rewrite check_users_walk, (walk_exact _ _ Hall Hadj).
  eexists. reflexivity.
Qed.

Lemma check_users_exact_witness :
  exists tr,
    check_users gl_ghost ["alice"; "ghost"; "zoe"] []
    = (Return ["alice"; "zoe"], [], tr).
Proof.
  apply (check_users_exact gl_ghost ["alice"; "ghost"; "zoe"] []).
  - repeat constructor.
  - vm_compute. reflexivity.
Defined.

(** ** Sorting and removing duplicates *)

Lemma str_lt_trans a b c : str_lt a b -> str_lt b c -> str_lt a c.
Proof.
  unfold str_lt. intros H1%String_as_OT.cmp_lt H2%String_as_OT.cmp_lt.
  apply String_as_OT.cmp_lt. exact (String_as_OT.lt_trans _ _ _ H1 H2).
Qed.

Lemma str_lt_irrefl a : ~ str_lt a a.
Proof.
  unfold str_lt. intros H%String_as_OT.cmp_lt.
  exact (String_as_OT.lt_not_eq _ _ H eq_refl).
Qed.

Lemma str_gt_lt a b : String.compare a b = Gt -> str_lt b a.
Proof.
  unfold str_lt. intros H. rewrite String.compare_antisym, H. reflexivity.
Qed.

Lemma insert_sorted_elem u x l : u ∈ insert_sorted x l <-> u = x \/ u ∈ l.
Proof.
  induction l as [|y l IH]; simpl.
  - rewrite list_elem_of_singleton, elem_of_nil. tauto.
  - destruct (String.compare x y) eqn:E.
    + apply String.compare_eq_iff in E. subst y. rewrite elem_of_cons. tauto.
    + rewrite !elem_of_cons. tauto.
    + rewrite !elem_of_cons, IH. tauto.
Qed.

Lemma sorted_set_elem u l : u ∈ sorted_set l <-> u ∈ l.
Proof.
  induction l as [|x l IH]; simpl; [tauto|].
  rewrite insert_sorted_elem, IH, elem_of_cons. tauto.
Qed.

Lemma insert_sorted_sorted x l :
  StronglySorted str_lt l -> StronglySorted str_lt (insert_sorted x l).
Proof.
  induction 1 as [|y l Hl IH Hy]; simpl.
  - repeat constructor.
  - destruct (String.compare x y) eqn:E.
    + constructor; assumption.
    + constructor; [constructor; assumption|].
      constructor; [exact E|].
      eapply Forall_impl; [exact Hy|]. intros z Hz. exact (str_lt_trans _ _ _ E Hz).
    + constructor; [exact IH|].
      apply Forall_forall. intros z Hz. apply insert_sorted_elem in Hz as [->|Hz].
      * exact (str_gt_lt _ _ E).
      * rewrite Forall_forall in Hy. exact (Hy _ Hz).
Qed.

(** [sorted(set(l))] is strictly increasing. *)
Lemma sorted_set_sorted l : StronglySorted str_lt (sorted_set l).
Proof.
  induction l as [|x l IH]; simpl; [constructor|].
  apply insert_sorted_sorted, IH.
Qed.

Lemma sublist_StronglySorted {A} (R : A -> A -> Prop) l1 l2 :
  l1 `sublist_of` l2 -> StronglySorted R l2 -> StronglySorted R l1.
Proof.
  induction 1 as [|x l1 l2 Hsub IH|x l1 l2 Hsub IH]; intros Hs.
  - constructor.
  - apply StronglySorted_inv in Hs as [Hs Hx]. constructor; [exact (IH Hs)|].
    apply Forall_forall. intros z Hz. rewrite Forall_forall in Hx.
    exact (Hx _ (elem_of_sublist _ _ _ Hz Hsub)).
  - apply StronglySorted_inv in Hs as [Hs _]. exact (IH Hs).
Qed.

Lemma StronglySorted_NoDup l : StronglySorted str_lt l -> NoDup l.
Proof.
  induction 1 as [|x l Hl IH Hx]; constructor; [|exact IH].
  intros Hin. rewrite Forall_forall in Hx. exact (str_lt_irrefl _ (Hx _ Hin)).
Qed.

(** X3: however the users are listed in the configuration, the check looks
    every user up at most once and in increasing order, and looks up only
    users that are listed. *)
Theorem users_looked_up_once gl l tbl o tbl' tr :
  check_users gl (sorted_set l) tbl = (o, tbl', tr) ->
  NoDup (lookups tr)
  /\ StronglySorted str_lt (lookups tr)
  /\ forall u, u ∈ lookups tr -> u ∈ l.
Proof.
  rewrite check_users_walk. intros [= _ _ <-].
  pose proof (walk_lookups gl (sorted_set l)) as Hsub.
  pose proof (sublist_StronglySorted _ _ _ Hsub (sorted_set_sorted l)) as Hs.
  split; [exact (StronglySorted_NoDup _ Hs)|]. split; [exact Hs|].
  intros u Hu. apply sorted_set_elem. exact (elem_of_sublist _ _ _ Hu Hsub).
Qed.

Lemma users_looked_up_once_witness :
  NoDup (lookups [ Call (UsersGet "alice"); Log INFO (UserFound "alice");
                   Call (UsersGet "bob"); Log INFO (UserFound "bob") ]).
Proof.
  assert (H : check_users gl_demo (sorted_set ["bob"; "alice"; "bob"]) []
              = (Return ["alice"; "bob"], [],
                 [ Call (UsersGet "alice"); Log INFO (UserFound "alice");
                   Call (UsersGet "bob"); Log INFO (UserFound "bob") ])).
  { vm_compute. reflexivity. }
  exact (proj1 (users_looked_up_once _ _ _ _ _ _ H)).
Defined.

(** ** The list accessor *)

Lemma append_cons c s t :
  String.append (String c s) t = String c (String.append s t).
Proof. reflexivity. Qed.

Lemma append_nil_r s : String.append s EmptyString = s.
Proof.
  induction s as [|c s IH]; [reflexivity|]. rewrite append_cons. f_equal. exact IH.
Qed.

Lemma append_assoc s1 s2 s3 :
  String.append (String.append s1 s2) s3 = String.append s1 (String.append s2 s3).
Proof.
  induction s1 as [|c s1 IH]; [reflexivity|]. rewrite !append_cons. f_equal. exact IH.
Qed.

Lemma length_append s1 s2 :
  String.length (String.append s1 s2) = (String.length s1 + String.length s2)%nat.
Proof.
  induction s1 as [|c s1 IH]; [reflexivity|]. rewrite append_cons. cbn [String.length].
  rewrite IH. reflexivity.
Qed.

Lemma string_of_list_ascii_app l1 l2 :
  string_of_list_ascii (l1 ++ l2)
  = String.append (string_of_list_ascii l1) (string_of_list_ascii l2).
Proof.
  induction l1 as [|c l1 IH]; [reflexivity|].
  cbn [app string_of_list_ascii]. rewrite append_cons. f_equal. exact IH.
Qed.

Lemma prefix_append sep s :
  String.prefix sep s = true -> exists rest, s = String.append sep rest.
Proof.
  revert s. induction sep as [|a sep IH]; intros s.
  - intros _. exists s. reflexivity.
  - destruct s as [|b s]; simpl; [discriminate|].
    destruct (ascii_dec a b) as [->|]; [|discriminate].
    intros H. destruct (IH _ H) as [rest ->]. exists rest. reflexivity.
Qed.

(** Dropping the rest of an occurrence of the separator. *)
Lemma split_from_skip sep t acc s :
  split_from sep (String.length t) acc (String.append t s) = split_from sep 0 acc s.
Proof.
  induction t as [|c t IH]; [reflexivity|].
  rewrite append_cons. cbn [String.length split_from]. exact IH.
Qed.

Lemma split_from_nonempty sep : forall s skip acc, split_from sep skip acc s ≠ [].
Proof.
  induction s as [|c s IH]; intros skip acc; cbn [split_from]; [done|].
  destruct skip; [|apply IH].
  destruct (String.prefix sep (String c s)); [done|apply IH].
Qed.

Lemma join_cons sep x l :
  l ≠ [] -> join sep (x :: l) = String.append x (String.append sep (join sep l)).
Proof. destruct l; [contradiction|reflexivity]. Qed.

Lemma join_split_from sep :
  sep ≠ EmptyString ->
  forall n s acc, (String.length s <= n)%nat ->
    join sep (split_from sep 0 acc s)
    = String.append (string_of_list_ascii (rev acc)) s.
Proof.
  intros Hsep. induction n as [|n IH]; intros s acc Hn.
  - destruct s; [|simpl in Hn; lia]. cbn [split_from join]. now rewrite append_nil_r.
  - destruct s as [|c s]; [cbn [split_from join]; now rewrite append_nil_r|].
    cbn [split_from]. destruct (String.prefix sep (String c s)) eqn:P.
    + destruct (prefix_append _ _ P) as [rest E].
      destruct sep as [|c0 sep']; [contradiction|].
      rewrite append_cons in E. injection E as -> ->.
      replace (String.length (String c0 sep') - 1)%nat with (String.length sep')
        by (simpl; lia).
      rewrite split_from_skip, join_cons by apply split_from_nonempty.
      rewrite IH.
      * reflexivity.
      * simpl in Hn. rewrite length_append in Hn. lia.
    + rewrite IH by (simpl in Hn; lia).
      simpl rev. rewrite string_of_list_ascii_app, append_assoc. reflexivity.
Qed.

(** Joining the fields of a split gives the string back. *)
Lemma join_split sep s : sep ≠ EmptyString -> join sep (split sep s) = s.
Proof.
  intros Hsep. unfold split.
  rewrite (join_split_from sep Hsep (String.length s)) by lia. reflexivity.
Qed.

(** X4: for a setting whose value is a string and a separator that is not
    empty, the list accessor returns a list that loses nothing: joined
    with the separator it gives the value back, empty fields included; and
    the list is empty only for the empty value. *)
Theorem list_joins_back (e : env.t) (separator s : string) :
  env.value e = PyStr s ->
  separator ≠ EmptyString ->
  exists l, env.list e separator = Return l
            /\ join separator l = s
            /\ (l = [] <-> s = EmptyString).
Proof.
  intros Hv Hsep. unfold env.list. rewrite Hv. simpl.
  destruct (String.eqb_spec s EmptyString) as [->|Hs]; simpl.
  - exists []. repeat split; reflexivity.
  - destruct (String.eqb_spec separator EmptyString) as [|_]; [contradiction|].
    exists (split separator s). split; [reflexivity|].
    split; [exact (join_split _ _ Hsep)|].
    split; [|contradiction].
    intros E. exfalso. exact (split_from_nonempty _ _ _ _ E).
Qed.

Lemma list_joins_back_witness :
  exists l,
    env.list (env.init {[ "GITLAB_FILLING_USERS" := "a,b,,c" ]}
                "GITLAB_FILLING_USERS" None PyNone) "," = Return l
    /\ join "," l = "a,b,,c"
    /\ (l = [] <-> "a,b,,c" = EmptyString).
Proof.
  apply (list_joins_back
           (env.init {[ "GITLAB_FILLING_USERS" := "a,b,,c" ]}
              "GITLAB_FILLING_USERS" None PyNone) "," "a,b,,c").
  - vm_compute. reflexivity.
  - discriminate.
Defined.

(** ** Before the groups are listed *)

Lemma required_unset environ key tbl :
  environ !! key = None ->
  required (env.init environ key None PyNone) tbl
  = (SysExit, tbl, [Log FATAL (RequiredNotSet key)]).
Proof.
  intros H. unfold required.
  rewrite (init_value_unset environ key None PyNone H eq_refl). reflexivity.
Qed.

Lemma required_set environ key t tbl :
  environ !! key = Some t ->
  required (env.init environ key None PyNone) tbl = (Return (PyStr t), tbl, []).
Proof.
  intros H. unfold required. rewrite (init_value_primary _ _ _ _ _ H).
  reflexivity.
Qed.

(** X6: without [GITLAB_PRIVATE_TOKEN] in the environment the run ends in
    [sys.exit()] after one fatal log; GitLab is not contacted at all and no
    membership changes. *)
Theorem missing_token_exits
    (DEFAULT_URL : string) (int_of_str : string -> option Z)
    (environ : gmap string string) (gl : gitlab) (tbl : list membership) :
  environ !! "GITLAB_PRIVATE_TOKEN" = None ->
  main DEFAULT_URL int_of_str environ gl tbl
  = (SysExit, tbl, [Log FATAL (RequiredNotSet "GITLAB_PRIVATE_TOKEN")]).
Proof.
  intros H. unfold main. apply bind_SysExit, required_unset, H.
Qed.

Lemma missing_token_exits_witness :
  main "https://gitlab.com" decimal {[ "GITLAB_FILLING_USERS" := "alice" ]} gl_demo []
  = (SysExit, [], [Log FATAL (RequiredNotSet "GITLAB_PRIVATE_TOKEN")]).
Proof.
  apply (missing_token_exits "https://gitlab.com" decimal
           {[ "GITLAB_FILLING_USERS" := "alice" ]} gl_demo []).
  vm_compute. reflexivity.
Defined.

Lemma login_gitlab_fails gl url token tbl :
  auth gl url token ≠ AuthOk ->
  exists msg,
    login_gitlab gl url token tbl
    = (SysExit, tbl, [Call (Auth url token); Log FATAL msg]).
Proof.
  intros H. unfold login_gitlab, bind, emit, logging, sys_exit.
  destruct (auth gl url token) as [|error_message|]; [contradiction|..];
    eexists; reflexivity.
Qed.

(** X7: when the login is refused, or the connection fails, the run ends in
    [sys.exit()] right after the attempt: one call to GitLab, one fatal
    log, no user is looked up and no group is fetched. *)
Theorem login_failure_exits
    (DEFAULT_URL : string) (int_of_str : string -> option Z)
    (environ : gmap string string) (gl : gitlab) (tbl : list membership)
    (token : string) :
  environ !! "GITLAB_PRIVATE_TOKEN" = Some token ->
  auth gl (gitlab_url DEFAULT_URL environ) (PyStr token) ≠ AuthOk ->
  exists msg,
    main DEFAULT_URL int_of_str environ gl tbl
    = (SysExit, tbl,
       [ Call (Auth (gitlab_url DEFAULT_URL environ) (PyStr token));
         Log FATAL msg ]).
Proof.
  intros Htok Hauth.
  destruct (login_gitlab_fails gl _ _ tbl Hauth) as [msg Hlogin].
  exists msg. unfold main.
  rewrite (bind_Return _ _ _ _ _ _ (required_set _ _ _ tbl Htok)).
  rewrite (bind_SysExit _ _ _ _ _ Hlogin). reflexivity.
Qed.

Lemma login_failure_exits_witness :
  exists msg,
    main "https://gitlab.com" decimal environ_maintainer
      {| auth := fun _ _ => AuthenticationError "401 Unauthorized";
         users_get := fun u => Found u;
         groups_list := [];
         members_fault := fun _ _ => None;
         create_fails := fun _ _ => false;
         groups_list_fails := false;
         groups_get_fails := fun _ => false;
         projects_list_fails := fun _ => false |} []
    = (SysExit, [],
       [ Call (Auth (gitlab_url "https://gitlab.com" environ_maintainer) (PyStr "glpat"));
         Log FATAL msg ]).
Proof.
  apply (login_failure_exits "https://gitlab.com" decimal environ_maintainer
           {| auth := fun _ _ => AuthenticationError "401 Unauthorized";
              users_get := fun u => Found u;
              groups_list := [];
              members_fault := fun _ _ => None;
              create_fails := fun _ _ => false;
              groups_list_fails := false;
              groups_get_fails := fun _ => false;
              projects_list_fails := fun _ => false |} [] "glpat").
  - vm_compute. reflexivity.
  - discriminate.
Defined.

(** X5: when [GITLAB_USERS_ACCESS_LEVEL] holds a non-empty string that
    [int] cannot read, the level resolves to a [ValueError] that nothing
    catches: the run never returns, no group is listed, fetched or changed
    and the memberships stay as they were. *)
Theorem malformed_access_level_raises
    (DEFAULT_URL : string) (int_of_str : string -> option Z)
    (environ : gmap string string) (gl : gitlab) (s : string)
    (tbl : list membership) o tbl' tr :
  environ !! "GITLAB_USERS_ACCESS_LEVEL" = Some s ->
  s ≠ EmptyString ->
  int_of_str s = None ->
  main DEFAULT_URL int_of_str environ gl tbl = (o, tbl', tr) ->
  access_level int_of_str environ = Uncaught ValueError
  /\ returned o = false /\ tbl' = tbl
  /\ Forall (fun e => group_event e = false) tr.
Proof.
  intros Hs Hne Hint.
  assert (Hv : access_level int_of_str environ = Uncaught ValueError).
  { unfold access_level, env.int. rewrite (init_value_primary _ _ _ _ _ Hs).
    rewrite (truthy_nonempty _ Hne). simpl. now rewrite Hint. }
  intros H. split; [exact Hv|]. revert tbl o tbl' tr H.
  change (halts (main DEFAULT_URL int_of_str environ gl)). unfold main.
  apply halts_bind; [apply quiet_required|]. intros gitlab_token.
  apply halts_bind; [apply quiet_login_gitlab|]. intros _.
  apply halts_bind; [apply quiet_lift|]. intros users0.
  apply halts_bind; [apply quiet_check_users|]. intros users.
  apply halts_bind; [apply quiet_lift|]. intros exclude0.
  rewrite Hv. intros tbl o tbl' tr [= <- <- <-]. repeat constructor.
Qed.

Lemma malformed_access_level_raises_witness :
  access_level decimal
    {[ "GITLAB_PRIVATE_TOKEN" := "glpat"; "GITLAB_USERS_ACCESS_LEVEL" := "high" ]}
  = Uncaught ValueError.
Proof.
  apply (malformed_access_level_raises "https://gitlab.com" decimal
           {[ "GITLAB_PRIVATE_TOKEN" := "glpat";
              "GITLAB_USERS_ACCESS_LEVEL" := "high" ]}
           gl_demo "high" [] (Uncaught ValueError) []
           [ Call (Auth PyNone (PyStr "glpat")); Log INFO (LoggedIn PyNone) ]).
  - vm_compute. reflexivity.
  - discriminate.
  - vm_compute. reflexivity.
  - vm_compute. reflexivity.
Defined.

(** ** The filters *)

(** X13: a group whose identifier is a number is never matched by the
    exclusion list, whatever the list holds: the list is made of strings
    and Python's [in] finds no string equal to a number.  Such a group is
    processed exactly as with an empty list. *)
Theorem numeric_id_never_excluded
    (gl : gitlab) (excl : list string) (sb sn : pyval) (users : list string)
    (g : group.t) (c : counters) (z : Z) :
  group.id g = PyInt z ->
  group_body gl excl sb sn users g c = group_body gl [] sb sn users g c.
Proof.
  intros H. unfold group_body. cbv zeta. rewrite !H, py_in_number. reflexivity.
Qed.

Lemma numeric_id_never_excluded_witness :
  group_body gl_demo ["1"] (PyBool true) (PyBool true) ["alice"]
    (group.mk (PyInt 1) "org/team" PyNone ["site"])
    {| success_u := 0; success_g := 0; total_g := 0 |}
  = group_body gl_demo [] (PyBool true) (PyBool true) ["alice"]
      (group.mk (PyInt 1) "org/team" PyNone ["site"])
      {| success_u := 0; success_g := 0; total_g := 0 |}.
Proof.
  apply (numeric_id_never_excluded gl_demo ["1"] (PyBool true) (PyBool true)
           ["alice"] (group.mk (PyInt 1) "org/team" PyNone ["site"])
           {| success_u := 0; success_g := 0; total_g := 0 |} 1).
  reflexivity.
Defined.

(** ** The shape of a run *)

(** A run either stops before the groups are listed, leaving no trace of a
    group, or stops because the listing of the groups raises, or it is the
    loop over the groups, run on the users that passed the check and
    followed, when it returns, by the two summary lines. *)
Lemma main_inv DEFAULT_URL int_of_str environ gl tbl o tbl' tr :
  main DEFAULT_URL int_of_str environ gl tbl = (o, tbl', tr) ->
  (returned o = false /\ tbl' = tbl /\ Forall (fun e => group_event e = false) tr)
  \/ (exists tr0,
        groups_list_fails gl = true /\ returned o = false /\ tbl' = tbl
        /\ Forall (fun e => group_event e = false) tr0
        /\ tr = tr0 ++ [Call GroupsList])
  \/ exists users0 users excl0 tr_u tr0 o1 tr1,
       filling_users environ = Return users0
       /\ check_users gl (sorted_set users0) tbl = (Return users, tbl, tr_u)
       /\ exclude_groups environ = Return excl0
       /\ Forall (fun e => group_event e = false) tr0
       /\ for_each (groups_list gl)
            (group_body gl (sorted_set excl0) (skip_blank environ)
               (skip_nested environ) users)
            {| success_u := 0; success_g := 0; total_g := 0 |} tbl
          = (o1, tbl', tr1)
       /\ ((exists c, o1 = Return c /\ o = Return c
              /\ tr = tr0 ++ Call GroupsList :: tr1
                        ++ [ Log INFO (Updated (success_u c) (success_g c) (total_g c));
                             Log INFO Done ])
           \/ (returned o1 = false /\ returned o = false
               /\ tr = tr0 ++ Call GroupsList :: tr1)).
Proof.
  unfold main. intros H.
  apply bind_inv in H as [(tok & t1 & r1 & s1 & E & H & ->)|[(E & ->)|(e & E & ->)]];
    [apply quiet_required in E as [-> F1]
    |left; apply quiet_required in E as [-> F]; auto ..].
  apply bind_inv in H as [(u2 & t2 & r2 & s2 & E & H & ->)|[(E & ->)|(e & E & ->)]];
    [apply quiet_login_gitlab in E as [-> F2]
    |left; apply quiet_login_gitlab in E as [-> F];
     repeat split; auto; apply Forall_app; auto ..].
  apply bind_inv in H as [(users0 & t3 & r3 & s3 & E & H & ->)|[(E & ->)|(e & E & ->)]];
    [injection E as Hfu <- <-
    |left; injection E as _ <- <-;
     repeat split; auto; rewrite !app_nil_r; apply Forall_app; auto ..].
  apply bind_inv in H as [(users & t4 & r4 & s4 & E & H & ->)|[(E & ->)|(e & E & ->)]];
    [pose proof E as Hcu; apply quiet_check_users in E as [-> F4]
    |left; apply quiet_check_users in E as [-> F];
     repeat split; auto; repeat (apply Forall_app; split); auto ..].
  apply bind_inv in H as [(excl0 & t5 & r5 & s5 & E & H & ->)|[(E & ->)|(e & E & ->)]];
    [injection E as Hex <- <-
    |left; injection E as _ <- <-;
     repeat split; auto; rewrite ?app_nil_r; repeat (apply Forall_app; split); auto ..].
  apply bind_inv in H as [(v & t6 & r6 & s6 & E & H & ->)|[(E & ->)|(e & E & ->)]];
    [injection E as Hal <- <-
    |left; injection E as _ <- <-;
     repeat split; auto; rewrite ?app_nil_r; repeat (apply Forall_app; split); auto ..].
  destruct (negb (in_levels v)).
  { left. injection H as <- <- <-.
    repeat split; auto; repeat (apply Forall_app; split); auto; repeat constructor. }
  apply bind_inv in H as [(u7 & t7 & r7 & s7 & E & H & ->)|[(E & ->)|(e & E & ->)]];
    [injection E as _ <- <-|discriminate E ..].
  apply bind_inv in H as [(u8 & t8 & r8 & s8 & E & H & ->)|[(E & ->)|(e & E & ->)]];
    [injection E as _ <- <-|discriminate E ..].
  assert (F0 : Forall (fun e => group_event e = false)
                 (r1 ++ r2 ++ r4 ++ [Log INFO (AccessLevelSet (level_name v))])).
  { repeat (apply Forall_app; split); auto. }
  destruct (groups_list_fails gl) eqn:Hlist.
  { injection H as <- <- <-. right. left.
    exists (r1 ++ r2 ++ r4 ++ [Log INFO (AccessLevelSet (level_name v))]).
    repeat split; auto. simpl. rewrite <- !app_assoc. reflexivity. }
  apply bind_inv in H as [(u9 & t9 & r9 & s9 & E & H & ->)|[(E & ->)|(e & E & ->)]];
    [injection E as _ <- <-|discriminate E ..].
  cbv zeta in H. right. right.
  exists users0, users, excl0, r4,
    (r1 ++ r2 ++ r4 ++ [Log INFO (AccessLevelSet (level_name v))]).
  apply bind_inv in H as [(c & t10 & r10 & s10 & E & H & ->)|[(E & ->)|(e & E & ->)]].
  - injection H as <- <- <-. exists (Return c), r10.
    repeat split; auto. left. exists c. repeat split.
    simpl. rewrite <- !app_assoc. reflexivity.
  - exists SysExit, s9. repeat split; auto. right. repeat split.
    simpl. rewrite <- !app_assoc. reflexivity.
  - exists (Uncaught e), s9. repeat split; auto. right. repeat split.
    simpl. rewrite <- !app_assoc. reflexivity.
Qed.

Lemma skip_blank_off environ s :
  environ !! "SKIP_BLANK_GROUPS" = Some s -> s ≠ EmptyString ->
  lower s ∉ true_words -> skip_blank environ = PyBool false.
Proof.
  intros Hs Hne Hw. unfold skip_blank, env.boolean.
  rewrite (init_value_primary _ _ _ _ _ Hs), (truthy_nonempty _ Hne). simpl.
  f_equal. apply bool_decide_eq_false_2. exact Hw.
Qed.

Lemma no_projects_other e :
  event_group e = None -> forall g, e ≠ Call (ProjectsList g).
Proof. intros He g ->. discriminate He. Qed.

Lemma group_body_no_projects gl excl sb sn users g c :
  truthy sb = false ->
  emits (fun e => forall g', e ≠ Call (ProjectsList g'))
    (group_body gl excl sb sn users g c).
Proof.
  intros Hsb. unfold group_body.
  apply emits_bind; [apply emits_emit, no_projects_other; reflexivity|]. intros _.
  apply emits_bind; [apply emits_fails, no_projects_other|]. intros _.
  cbv zeta.
  assert (Hskip : forall msg (c' : counters),
    emits (fun e => forall g', e ≠ Call (ProjectsList g'))
      (logging DEBUG msg >> ret c')).
  { intros msg c'. apply emits_bind; [|intros _; apply emits_ret].
    apply emits_logging, no_projects_other. }
  destruct (py_in (group.id g) excl); [apply Hskip|].
  destruct (truthy sn && is_not_none (group.parent_id g)); [apply Hskip|].
  apply emits_bind.
  { apply emits_blank_group; [apply no_projects_other|].
    rewrite Hsb. discriminate. }
  intros [|]; [apply Hskip|].
  apply emits_bind; [apply emits_logging, no_projects_other|]. intros _.
  apply emits_bind; [|intros n; apply emits_ret].
  apply emits_for_each. intros user n.
  apply emits_user_body; [apply no_projects_other|discriminate..].
Qed.

(** X14: with [SKIP_BLANK_GROUPS] set to a non-empty value that is none of
    the words read as true, the project list of a group is never asked
    for, in any run. *)
Theorem blank_filter_off_lists_no_projects
    (DEFAULT_URL : string) (int_of_str : string -> option Z)
    (environ : gmap string string) (gl : gitlab) (s : string)
    (tbl : list membership) o tbl' tr :
  environ !! "SKIP_BLANK_GROUPS" = Some s ->
  s ≠ EmptyString ->
  lower s ∉ true_words ->
  main DEFAULT_URL int_of_str environ gl tbl = (o, tbl', tr) ->
  Forall (fun e => forall g, e ≠ Call (ProjectsList g)) tr.
Proof.
  intros Hs Hne Hw H.
  pose proof (skip_blank_off _ _ Hs Hne Hw) as Hsb.
  assert (Hquiet : forall l, Forall (fun e => group_event e = false) l ->
            Forall (fun e => forall g, e ≠ Call (ProjectsList g)) l).
  { intros l Fl. eapply Forall_impl; [exact Fl|]. intros e He g ->. discriminate He. }
  apply main_inv in H
    as [(_ & _ & F)|[(tr0 & _ & _ & _ & F0 & ->)
                    |(users0 & users & excl0 & tr_u & tr0 & o1 & tr1
                      & _ & _ & _ & F0 & Hloop & Htr)]]; [exact (Hquiet _ F)| |].
  { apply Forall_app. split; [exact (Hquiet _ F0)|].
    repeat constructor; discriminate. }
  assert (F1 : Forall (fun e => forall g, e ≠ Call (ProjectsList g)) tr1).
  { revert Hloop. apply emits_for_each. intros g c.
    apply group_body_no_projects. rewrite Hsb. reflexivity. }
  destruct Htr as [(c & _ & _ & ->)|(_ & _ & ->)].
  - apply Forall_app. split; [exact (Hquiet _ F0)|].
    constructor; [discriminate|]. apply Forall_app. split; [exact F1|].
    repeat constructor; discriminate.
  - apply Forall_app. split; [exact (Hquiet _ F0)|].
    constructor; [discriminate|exact F1].
Qed.

Lemma blank_filter_off_lists_no_projects_witness :
  Forall (fun e => forall g, e ≠ Call (ProjectsList g))
    [ Call (Auth PyNone (PyStr "glpat")); Log INFO (LoggedIn PyNone);
      Log INFO (AccessLevelSet "Developer");
      Call GroupsList;
      Call (GroupsGet (PyInt 1)); Log INFO (WorkWithGroup "org/team");
      Log INFO (Updated 0 1 1); Log INFO Done ].
Proof.
  apply (blank_filter_off_lists_no_projects "https://gitlab.com" decimal
           {[ "GITLAB_PRIVATE_TOKEN" := "glpat"; "SKIP_BLANK_GROUPS" := "No" ]}
           gl_demo "No" []
           (Return {| success_u := 0; success_g := 1; total_g := 1 |}) []).
  - vm_compute. reflexivity.
  - discriminate.
  - vm_compute. intros H. repeat (apply elem_of_cons in H as [H|H]; [discriminate H|]).
    inversion H.
  - vm_compute. reflexivity.
Defined.

(** ** The loop over the groups, case by case *)

Lemma bind_inv_Return {A B} (m : M A) (k : A -> M B) tbl b tbl' tr :
  bind m k tbl = (Return b, tbl', tr) ->
  exists a tbl1 tr1 tr2,
    m tbl = (Return a, tbl1, tr1) /\ k a tbl1 = (Return b, tbl', tr2)
    /\ tr = tr1 ++ tr2.
Proof.
  intros H. apply bind_inv in H as [H|[[_ H]|(e & _ & H)]];
    [exact H|discriminate H..].
Qed.

(** When one of the calls made outside every [try] raises, the run ends
    there and the table is left alone. *)
Lemma group_body_fails gl excl sb sn users g c tbl :
  group_call_fails gl excl sb sn g = true ->
  exists tr,
    group_body gl excl sb sn users g c tbl = (Uncaught RemoteError, tbl, tr)
    /\ fetched tr = [group.id g].
Proof.
  unfold group_call_fails, group_body, blank_group, fails, lift, bind, logging,
    emit, ret.
  cbv zeta. intros H.
  destruct (groups_get_fails gl (group.id g)); [eexists; split; reflexivity|].
  simpl in H.
  destruct (py_in (group.id g) excl); [discriminate H|].
  destruct (truthy sn && is_not_none (group.parent_id g)); [discriminate H|].
  destruct (truthy sb); [|discriminate H].
  simpl in H. rewrite H. eexists; split; reflexivity.
Qed.

Lemma group_body_Return gl excl sb sn users g c tbl c' tbl' tr :
  group_body gl excl sb sn users g c tbl = (Return c', tbl', tr) ->
  group_call_fails gl excl sb sn g = false.
Proof.
  intros H. destruct (group_call_fails gl excl sb sn g) eqn:E; [|reflexivity].
  destruct (group_body_fails _ _ _ _ users _ c tbl E) as (tr0 & E0 & _).
  rewrite E0 in H. discriminate H.
Qed.

(** A group that passes the filters is worked on. *)
Lemma group_body_matching gl excl sb sn users g c tbl :
  group_call_fails gl excl sb sn g = false ->
  matching excl sb sn g = true ->
  group_body gl excl sb sn users g c tbl
  = (outcome_map (count_group c)
       (for_each users (user_body gl g) (success_u c) tbl).1.1,
     (for_each users (user_body gl g) (success_u c) tbl).1.2,
     Call (GroupsGet (group.id g))
       :: after_filters sb g
       ++ Log INFO (WorkWithGroup (group.full_path g))
       :: (for_each users (user_body gl g) (success_u c) tbl).2).
Proof.
  unfold group_call_fails, matching. intros Hf H.
  apply orb_false_elim in Hf as [Hget Hproj].
  apply andb_prop in H as [H H3]. apply andb_prop in H as [H1 H2].
  apply negb_true_iff in H1, H2, H3.
  rewrite H1, H2 in Hproj. simpl in Hproj.
  unfold group_body, blank_group, after_filters, fails, lift, bind, logging,
    emit, ret.
  cbv zeta. rewrite Hget, H1, H2. cbn [success_u].
  destruct (truthy sb); simpl in H3, Hproj.
  - rewrite H3, Hproj.
    destruct (for_each users (user_body gl g) (success_u c) tbl) as [[[n| |e] t] r];
      simpl; rewrite ?app_nil_r; reflexivity.
  - destruct (for_each users (user_body gl g) (success_u c) tbl) as [[[n| |e] t] r];
      simpl; rewrite ?app_nil_r; reflexivity.
Qed.

(** A group that fails a filter is skipped: it is counted as seen, the
    table is left alone and nobody is looked up or added. *)
Lemma group_body_skipped gl excl sb sn users g c tbl :
  group_call_fails gl excl sb sn g = false ->
  matching excl sb sn g = false ->
  exists tr,
    group_body gl excl sb sn users g c tbl = (Return (skip_group c), tbl, tr)
    /\ creations tr = 0%nat
    /\ fetched tr = [group.id g].
Proof.
  unfold group_call_fails, matching, group_body, blank_group, fails, lift, bind,
    logging, emit, ret.
  cbv zeta. intros Hf H.
  apply orb_false_elim in Hf as [Hget Hproj]. rewrite Hget.
  destruct (py_in (group.id g) excl); [eexists; repeat split; reflexivity|].
  destruct (truthy sn && is_not_none (group.parent_id g));
    [eexists; repeat split; reflexivity|].
  destruct (truthy sb); [|discriminate H].
  simpl in Hproj. rewrite Hproj.
  destruct (length (group.projects g) <? 1)%nat; [|discriminate H].
  eexists; repeat split; reflexivity.
Qed.

(** ** The counters of the summary *)

Lemma creations_app tr1 tr2 :
  creations (tr1 ++ tr2) = (creations tr1 + creations tr2)%nat.
Proof. unfold creations. rewrite List.filter_app, length_app. reflexivity. Qed.

Lemma creations_quiet tr :
  Forall (fun e => group_event e = false) tr -> creations tr = 0%nat.
Proof.
  induction 1 as [|e tr He _ IH]; [reflexivity|].
  change (e :: tr) with ([e] ++ tr). rewrite creations_app, IH.
  destruct e as [[]|]; try discriminate; reflexivity.
Qed.

Lemma user_loop_counts gl g : forall users n tbl n' tbl' tr,
  for_each users (user_body gl g) n tbl = (Return n', tbl', tr) ->
  (length tbl' + n = length tbl + n')%nat /\ (creations tr + n = n')%nat.
Proof.
  induction users as [|user users IH]; intros n tbl n' tbl' tr; simpl.
  - intros [= <- <- <-]. split; reflexivity.
  - intros H. apply bind_inv_Return in H as (n1 & t1 & r1 & r2 & E1 & E2 & ->).
    apply IH in E2 as [Hlen Hcre]. rewrite creations_app.
    rewrite user_body_eq in E1.
    destruct (member_lookup gl tbl (group.id g) user) as [[]|code|].
    + injection E1 as <- <- <-. split; [exact Hlen|exact Hcre].
    + destruct (code =? 404).
      * destruct (create_fails gl (group.id g) user); [discriminate|].
        injection E1 as <- <- <-. rewrite length_app in Hlen. simpl in Hlen.
        split; [lia|]. change (creations _) with 1%nat at 1. lia.
      * injection E1 as <- <- <-. split; [exact Hlen|exact Hcre].
    + discriminate.
Qed.

Lemma group_body_counts gl excl sb sn users g c tbl c' tbl' tr :
  group_body gl excl sb sn users g c tbl = (Return c', tbl', tr) ->
  (length tbl' + success_u c = length tbl + success_u c')%nat
  /\ (creations tr + success_u c = success_u c')%nat
  /\ total_g c' = S (total_g c)
  /\ success_g c'
     = (success_g c + (if matching excl sb sn g then 1 else 0))%nat.
Proof.
  intros H. pose proof (group_body_Return _ _ _ _ _ _ _ _ _ _ _ H) as Hf.
  revert H. destruct (matching excl sb sn g) eqn:Hm.
  - rewrite (group_body_matching _ _ _ _ _ _ _ _ Hf Hm).
    destruct (for_each users (user_body gl g) (success_u c) tbl)
      as [[[n| |e] t] r] eqn:E; simpl; [|discriminate..].
    intros [= <- <- <-]. apply user_loop_counts in E as [Hlen Hcre]. simpl.
    change (Call (GroupsGet (group.id g))
              :: after_filters sb g
              ++ Log INFO (WorkWithGroup (group.full_path g)) :: r)
      with ([Call (GroupsGet (group.id g))]
              ++ after_filters sb g
              ++ [Log INFO (WorkWithGroup (group.full_path g))] ++ r).
    rewrite !creations_app.
    assert (creations (after_filters sb g) = 0%nat) as ->.
    { unfold after_filters. destruct (truthy sb); reflexivity. }
    change (creations [Call (GroupsGet (group.id g))]) with 0%nat.
    change (creations [Log INFO (WorkWithGroup (group.full_path g))]) with 0%nat.
    repeat split; lia.
  - destruct (group_body_skipped gl _ _ _ users _ c tbl Hf Hm)
      as (tr0 & -> & Hcre & _).
    intros [= <- <- <-]. simpl. rewrite Hcre. repeat split; lia.
Qed.

Lemma group_loop_counts gl excl sb sn users : forall groups c tbl c' tbl' tr,
  for_each groups (group_body gl excl sb sn users) c tbl = (Return c', tbl', tr) ->
  (length tbl' + success_u c = length tbl + success_u c')%nat
  /\ (creations tr + success_u c = success_u c')%nat
  /\ total_g c' = (total_g c + length groups)%nat
  /\ success_g c'
     = (success_g c + length (List.filter (matching excl sb sn) groups))%nat.
Proof.
  induction groups as [|g groups IH]; intros c tbl c' tbl' tr; simpl.
  - intros [= <- <- <-]. repeat split; lia.
  - intros H. apply bind_inv_Return in H as (c1 & t1 & r1 & r2 & E1 & E2 & ->).
    apply group_body_counts in E1 as (L1 & C1 & T1 & G1).
    apply IH in E2 as (L2 & C2 & T2 & G2). rewrite creations_app.
    destruct (matching excl sb sn g); simpl; repeat split; lia.
Qed.

(** X8: when a run returns, the summary counts every group GitLab listed
    as found, and counts as matching exactly the groups that pass the
    three filters: not in the exclusion list, not nested when nested
    groups are skipped, not without projects when blank groups are
    skipped. *)
Theorem summary_counts_groups
    (DEFAULT_URL : string) (int_of_str : string -> option Z)
    (environ : gmap string string) (gl : gitlab) (excl0 : list string)
    (tbl : list membership) c tbl' tr :
  exclude_groups environ = Return excl0 ->
  main DEFAULT_URL int_of_str environ gl tbl = (Return c, tbl', tr) ->
  total_g c = length (groups_list gl)
  /\ success_g c
     = length (List.filter
                 (matching (sorted_set excl0) (skip_blank environ)
                    (skip_nested environ))
                 (groups_list gl))
  /\ (success_g c <= total_g c)%nat.
Proof.
  intros Hex H.
  apply main_inv in H
    as [(Hr & _)|[(tr0 & _ & Hr & _)
                 |(users0 & users & excl1 & tr_u & tr0 & o1 & tr1
                   & _ & _ & Hex1 & _ & Hloop & Htr)]]; [discriminate Hr..|].
  rewrite Hex in Hex1. injection Hex1 as <-.
  destruct Htr as [(c1 & -> & [= <-] & _)|(_ & Hr & _)]; [|discriminate Hr].
  apply group_loop_counts in Hloop as (_ & _ & T & G). simpl in T, G.
  rewrite T, G. repeat split.
  apply List.filter_length_le.
Qed.

(** X9: when a run returns, the number of users the summary reports as
    added is the number of rows the run appended to the membership table
    and the number of [members.create] calls it made; the summary line
    logged carries the counters returned. *)
Theorem summary_counts_users
    (DEFAULT_URL : string) (int_of_str : string -> option Z)
    (environ : gmap string string) (gl : gitlab)
    (tbl : list membership) c tbl' tr :
  main DEFAULT_URL int_of_str environ gl tbl = (Return c, tbl', tr) ->
  length tbl' = (length tbl + success_u c)%nat
  /\ creations tr = success_u c
  /\ exists tr',
       tr = tr' ++ [ Log INFO (Updated (success_u c) (success_g c) (total_g c));
                     Log INFO Done ].
Proof.
  intros H.
  apply main_inv in H
    as [(Hr & _)|[(tr0 & _ & Hr & _)
                 |(users0 & users & excl1 & tr_u & tr0 & o1 & tr1
                   & _ & _ & _ & F0 & Hloop & Htr)]]; [discriminate Hr..|].
  destruct Htr as [(c1 & -> & [= <-] & ->)|(_ & Hr & _)]; [|discriminate Hr].
  apply group_loop_counts in Hloop as (L & C & _ & _). simpl in L, C.
  split; [lia|]. split.
  - change (Call GroupsList :: tr1 ++ ?l) with ([Call GroupsList] ++ tr1 ++ l).
    rewrite !creations_app, (creations_quiet _ F0).
    change (creations [Call GroupsList]) with 0%nat.
    match goal with |- context [creations [?a; ?b]] =>
      change (creations [a; b]) with 0%nat end.
    lia.
  - exists (tr0 ++ Call GroupsList :: tr1).
    rewrite <- app_assoc. reflexivity.
Qed.

Lemma summary_counts_groups_witness :
  let c := {| success_u := 1; success_g := 1; total_g := 2 |} in
  total_g c = length (groups_list gl_two_groups)
  /\ success_g c
     = length (List.filter
                 (matching (sorted_set ["7"]) (skip_blank environ_exclude)
                    (skip_nested environ_exclude))
                 (groups_list gl_two_groups))
  /\ (success_g c <= total_g c)%nat.
Proof.
  apply (summary_counts_groups "https://gitlab.com" decimal environ_exclude
           gl_two_groups ["7"] []
           {| success_u := 1; success_g := 1; total_g := 2 |}
           (main "https://gitlab.com" decimal environ_exclude gl_two_groups []).1.2
           (main "https://gitlab.com" decimal environ_exclude gl_two_groups []).2).
  - vm_compute. reflexivity.
  - vm_compute. reflexivity.
Defined.

Lemma summary_counts_users_witness :
  let c := {| success_u := 1; success_g := 1; total_g := 1 |} in
  length [ {| m_group := PyInt 1; m_user := "alice"; m_level := 30 |} ]
  = (length (@nil membership) + success_u c)%nat
  /\ creations (main "https://gitlab.com" decimal environ_maintainer gl_demo []).2
     = success_u c
  /\ exists tr',
       (main "https://gitlab.com" decimal environ_maintainer gl_demo []).2
       = tr' ++ [ Log INFO (Updated (success_u c) (success_g c) (total_g c));
                  Log INFO Done ].
Proof.
  apply (summary_counts_users "https://gitlab.com" decimal environ_maintainer
           gl_demo []
           {| success_u := 1; success_g := 1; total_g := 1 |}
           [ {| m_group := PyInt 1; m_user := "alice"; m_level := 30 |} ]
           (main "https://gitlab.com" decimal environ_maintainer gl_demo []).2).
  vm_compute. reflexivity.
Defined.

(** ** What a run leaves in the membership table *)

Lemma has_member_prefix tbl tbl' g user :
  tbl `prefix_of` tbl' -> has_member tbl g user = true ->
  has_member tbl' g user = true.
Proof. intros [k ->] H. rewrite has_member_app, H. reflexivity. Qed.

Lemma grows_user_loop gl g users n : grows (for_each users (user_body gl g) n).
Proof. revert n. apply grows_for_each. intros user n. apply grows_user_body. Qed.

Lemma user_loop_post gl g : forall users n tbl n' tbl' tr,
  for_each users (user_body gl g) n tbl = (Return n', tbl', tr) ->
  forall user, user ∈ users -> members_fault gl (group.id g) user = None ->
    has_member tbl' (group.id g) user = true.
Proof.
  induction users as [|u users IH]; intros n tbl n' tbl' tr; simpl.
  - intros _ user Hin. inversion Hin.
  - intros H user Hin Hfault.
    apply bind_inv_Return in H as (n1 & t1 & r1 & r2 & E1 & E2 & ->).
    apply elem_of_cons in Hin as [->|Hin]; [|exact (IH _ _ _ _ _ E2 _ Hin Hfault)].
    apply (has_member_prefix t1); [exact (grows_user_loop _ _ _ _ _ _ _ _ E2)|].
    rewrite user_body_eq in E1. unfold member_lookup in E1. rewrite Hfault in E1.
    destruct (has_member tbl (group.id g) u) eqn:Hm.
    + injection E1 as _ <- _. exact Hm.
    + simpl in E1. destruct (create_fails gl (group.id g) u); [discriminate|].
      injection E1 as _ <- _. rewrite has_member_app, has_member_row.
      apply orb_true_r.
Qed.

Lemma group_loop_post gl excl sb sn users : forall groups c tbl c' tbl' tr,
  for_each groups (group_body gl excl sb sn users) c tbl = (Return c', tbl', tr) ->
  forall g user, g ∈ groups -> matching excl sb sn g = true -> user ∈ users ->
    members_fault gl (group.id g) user = None ->
    has_member tbl' (group.id g) user = true.
Proof.
  induction groups as [|g0 groups IH]; intros c tbl c' tbl' tr; simpl.
  - intros _ g user Hin. inversion Hin.
  - intros H g user Hin Hm Hu Hfault.
    apply bind_inv_Return in H as (c1 & t1 & r1 & r2 & E1 & E2 & ->).
    apply elem_of_cons in Hin as [->|Hin];
      [|exact (IH _ _ _ _ _ E2 _ _ Hin Hm Hu Hfault)].
    apply (has_member_prefix t1).
    { revert E2. apply grows_for_each. intros g c0. apply grows_group_body. }
    rewrite (group_body_matching _ _ _ _ _ _ _ _
               (group_body_Return _ _ _ _ _ _ _ _ _ _ _ E1) Hm) in E1.
    destruct (for_each users (user_body gl g0) (success_u c) tbl)
      as [[[n| |e] t] r] eqn:E; simpl in E1; try discriminate.
    injection E1 as _ <- _. exact (user_loop_post _ _ _ _ _ _ _ _ E _ Hu Hfault).
Qed.

(** X10: when a run returns, every user that passed the check is a member
    of every group that passes the filters, provided the lookup of that
    membership answers from the table (no error of its own). *)
Theorem validated_users_are_members
    (DEFAULT_URL : string) (int_of_str : string -> option Z)
    (environ : gmap string string) (gl : gitlab)
    (tbl : list membership) c tbl' tr :
  main DEFAULT_URL int_of_str environ gl tbl = (Return c, tbl', tr) ->
  exists users0 users excl0 tr_u,
    filling_users environ = Return users0
    /\ check_users gl (sorted_set users0) tbl = (Return users, tbl, tr_u)
    /\ exclude_groups environ = Return excl0
    /\ forall g user,
         g ∈ groups_list gl ->
         matching (sorted_set excl0) (skip_blank environ) (skip_nested environ) g
           = true ->
         user ∈ users ->
         members_fault gl (group.id g) user = None ->
         has_member tbl' (group.id g) user = true.
Proof.
  intros H.
  apply main_inv in H
    as [(Hr & _)|[(tr0 & _ & Hr & _)
                 |(users0 & users & excl0 & tr_u & tr0 & o1 & tr1
                   & Hfu & Hcu & Hex & _ & Hloop & Htr)]]; [discriminate Hr..|].
  destruct Htr as [(c1 & -> & _)|(_ & Hr & _)]; [|discriminate Hr].
  exists users0, users, excl0, tr_u. repeat split; try assumption.
  intros g user Hg Hm Hu Hfault.
  exact (group_loop_post _ _ _ _ _ _ _ _ _ _ _ Hloop g user Hg Hm Hu Hfault).
Qed.

Lemma validated_users_are_members_witness :
  exists users0 users excl0 tr_u,
    filling_users environ_maintainer = Return users0
    /\ check_users gl_demo (sorted_set users0) [] = (Return users, [], tr_u)
    /\ exclude_groups environ_maintainer = Return excl0
    /\ forall g user,
         g ∈ groups_list gl_demo ->
         matching (sorted_set excl0) (skip_blank environ_maintainer)
           (skip_nested environ_maintainer) g = true ->
         user ∈ users ->
         members_fault gl_demo (group.id g) user = None ->
         has_member [ {| m_group := PyInt 1; m_user := "alice"; m_level := 30 |} ]
           (group.id g) user = true.
Proof.
  apply (validated_users_are_members "https://gitlab.com" decimal
           environ_maintainer gl_demo []
           {| success_u := 1; success_g := 1; total_g := 1 |}
           [ {| m_group := PyInt 1; m_user := "alice"; m_level := 30 |} ]
           (main "https://gitlab.com" decimal environ_maintainer gl_demo []).2).
  vm_compute. reflexivity.
Defined.

(** ** Rows a run adds *)

Lemma appends_indep {A} Q (m : M A) : indep m -> appends Q m.
Proof.
  intros (o & tr & Hm) tbl o' tbl' tr' H. rewrite Hm in H.
  injection H as _ <- _. exists []. split; [now rewrite app_nil_r|constructor].
Qed.

Lemma appends_bind {A B} Q (m : M A) (k : A -> M B) :
  appends Q m -> (forall a, appends Q (k a)) -> appends Q (bind m k).
Proof.
  intros Hm Hk tbl o tbl' tr H. bind_cases H.
  - destruct (Hm _ _ _ _ E1) as (a1 & -> & F1).
    destruct (Hk _ _ _ _ _ E2) as (a2 & -> & F2).
    exists (a1 ++ a2). split; [now rewrite app_assoc|].
    apply Forall_app. split; assumption.
  - exact (Hm _ _ _ _ E1).
  - exact (Hm _ _ _ _ E1).
Qed.

Lemma appends_weaken {A} (Q Q' : membership -> Prop) (m : M A) :
  (forall r, Q r -> Q' r) -> appends Q m -> appends Q' m.
Proof.
  intros HQ Hm tbl o tbl' tr H. destruct (Hm _ _ _ _ H) as (added & -> & F).
  exists added. split; [reflexivity|]. eapply Forall_impl; [exact F|exact HQ].
Qed.

Lemma appends_for_each {A S} Q (body : A -> S -> M S) : forall (l : list A),
  (forall x s, x ∈ l -> appends Q (body x s)) ->
  forall s, appends Q (for_each l body s).
Proof.
  induction l as [|x l IH]; intros Hb s; simpl.
  - apply appends_indep, indep_ret.
  - apply appends_bind; [apply Hb; left|].
    apply IH. intros y s' Hy. apply Hb. right. exact Hy.
Qed.

Lemma appends_user_body gl g user n :
  appends (fun r => r = row (group.id g) user) (user_body gl g user n).
Proof.
  intros tbl o tbl' tr. rewrite user_body_eq.
  assert (Hnone : forall t : list membership,
            exists added, t = t ++ added
                          /\ Forall (fun r => r = row (group.id g) user) added).
  { intros t. exists []. split; [now rewrite app_nil_r|constructor]. }
  destruct (member_lookup gl tbl (group.id g) user) as [[]|code|].
  - intros [= _ <- _]. apply Hnone.
  - destruct (code =? 404); [|intros [= _ <- _]; apply Hnone].
    destruct (create_fails gl (group.id g) user); intros [= _ <- _];
      [apply Hnone|].
    eexists. split; [reflexivity|]. repeat constructor.
  - intros [= _ <- _]. apply Hnone.
Qed.

Lemma appends_group_body gl excl sb sn users g c :
  appends (fun r => matching excl sb sn g = true
                    /\ exists user, user ∈ users /\ r = row (group.id g) user)
    (group_body gl excl sb sn users g c).
Proof.
  intros tbl o tbl' tr.
  destruct (group_call_fails gl excl sb sn g) eqn:Hf.
  { destruct (group_body_fails _ _ _ _ users _ c tbl Hf) as (tr0 & -> & _).
    intros [= _ <- _]. exists []. split; [now rewrite app_nil_r|constructor]. }
  destruct (matching excl sb sn g) eqn:Hm.
  - rewrite (group_body_matching _ _ _ _ _ _ _ _ Hf Hm).
    destruct (for_each users (user_body gl g) (success_u c) tbl)
      as [[o1 t] r] eqn:E. simpl. intros [= _ <- _].
    revert E. apply appends_for_each. intros user n Hu.
    eapply appends_weaken; [|apply appends_user_body].
    intros r0 ->. split; [reflexivity|]. exists user. split; [exact Hu|reflexivity].
  - destruct (group_body_skipped gl _ _ _ users _ c tbl Hf Hm) as (tr0 & -> & _).
    intros [= _ <- _]. exists []. split; [now rewrite app_nil_r|constructor].
Qed.

(** X11: whatever way a run ends, the rows it has added to the membership
    table are all of level 30, for a user listed in [GITLAB_FILLING_USERS]
    and for a listed group that passes the filters; nothing else is ever
    added. *)
Theorem rows_added_are_configured
    (DEFAULT_URL : string) (int_of_str : string -> option Z)
    (environ : gmap string string) (gl : gitlab)
    (users0 excl0 : list string) (tbl : list membership) o tbl' tr :
  filling_users environ = Return users0 ->
  exclude_groups environ = Return excl0 ->
  main DEFAULT_URL int_of_str environ gl tbl = (o, tbl', tr) ->
  exists added,
    tbl' = tbl ++ added
    /\ Forall (fun r =>
         m_level r = DEVELOPER_ACCESS
         /\ m_user r ∈ users0
         /\ exists g, g ∈ groups_list gl
              /\ matching (sorted_set excl0) (skip_blank environ)
                   (skip_nested environ) g = true
              /\ m_group r = group.id g) added.
Proof.
  intros Hfu Hex H.
  apply main_inv in H
    as [(_ & -> & _)|[(tr0 & _ & _ & -> & _)
                     |(users1 & users & excl1 & tr_u & tr0 & o1 & tr1
                       & Hfu1 & Hcu & Hex1 & _ & Hloop & _)]].
  { exists []. split; [now rewrite app_nil_r|constructor]. }
  { exists []. split; [now rewrite app_nil_r|constructor]. }
  rewrite Hfu in Hfu1. injection Hfu1 as <-.
  rewrite Hex in Hex1. injection Hex1 as <-.
  assert (Hsub : forall u, u ∈ users -> u ∈ users0).
  { intros u Hu. apply sorted_set_elem.
    rewrite check_users_walk in Hcu. injection Hcu as Hw _.
    exact (elem_of_sublist _ _ _ Hu (walk_sublist _ _ _ Hw)). }
  revert Hloop. apply appends_for_each. intros g c Hg.
  eapply appends_weaken; [|apply appends_group_body].
  intros r (Hm & user & Hu & ->). split; [reflexivity|].
  split; [exact (Hsub _ Hu)|]. exists g. repeat split; assumption.
Qed.

Lemma rows_added_are_configured_witness :
  exists added,
    [ {| m_group := PyInt 1; m_user := "alice"; m_level := 30 |} ] = [] ++ added
    /\ Forall (fun r =>
         m_level r = DEVELOPER_ACCESS
         /\ m_user r ∈ ["alice"]
         /\ exists g, g ∈ groups_list gl_demo
              /\ matching (sorted_set []) (skip_blank environ_maintainer)
                   (skip_nested environ_maintainer) g = true
              /\ m_group r = group.id g) added.
Proof.
  apply (rows_added_are_configured "https://gitlab.com" decimal
           environ_maintainer gl_demo ["alice"] [] []
           (Return {| success_u := 1; success_g := 1; total_g := 1 |})
           [ {| m_group := PyInt 1; m_user := "alice"; m_level := 30 |} ]
           (main "https://gitlab.com" decimal environ_maintainer gl_demo []).2).
  - vm_compute. reflexivity.
  - vm_compute. reflexivity.
  - vm_compute. reflexivity.
Defined.

(** ** No membership twice *)

Lemma preserves_indep {A} I (m : M A) : indep m -> preserves I m.
Proof.
  intros (o & tr & Hm) tbl o' tbl' tr' HI H. rewrite Hm in H.
  injection H as _ <- _. exact HI.
Qed.

Lemma preserves_bind {A B} I (m : M A) (k : A -> M B) :
  preserves I m -> (forall a, preserves I (k a)) -> preserves I (bind m k).
Proof.
  intros Hm Hk tbl o tbl' tr HI H. bind_cases H.
  - exact (Hk _ _ _ _ _ (Hm _ _ _ _ HI E1) E2).
  - exact (Hm _ _ _ _ HI E1).
  - exact (Hm _ _ _ _ HI E1).
Qed.

Lemma preserves_for_each {A S} I (body : A -> S -> M S) (l : list A) :
  (forall x s, preserves I (body x s)) -> forall s, preserves I (for_each l body s).
Proof.
  intros Hb. induction l as [|x l IH]; intros s; simpl.
  - apply preserves_indep, indep_ret.
  - apply preserves_bind; [apply Hb|exact IH].
Qed.

Lemma has_member_keys tbl g user :
  has_member tbl g user = true <-> (g, user) ∈ keys tbl.
Proof.
  unfold has_member, keys. rewrite existsb_exists, list_elem_of_fmap. split.
  - intros (r & Hin & Hr). apply andb_prop in Hr as [Hg Hu].
    apply bool_decide_eq_true_1 in Hg. apply String.eqb_eq in Hu.
    exists r. split; [now rewrite Hg, Hu|]. apply list_elem_of_In, Hin.
  - intros (r & [= -> ->] & Hin). exists r. split; [apply list_elem_of_In, Hin|].
    rewrite bool_decide_eq_true_2 by reflexivity. now rewrite String.eqb_refl.
Qed.

Lemma preserves_user_body gl g user n :
  consistent gl -> preserves (fun tbl => NoDup (keys tbl)) (user_body gl g user n).
Proof.
  intros C tbl o tbl' tr HI. rewrite user_body_eq.
  destruct (member_lookup gl tbl (group.id g) user) as [[]|code|] eqn:L.
  - intros [= _ <- _]. exact HI.
  - destruct (code =? 404) eqn:Ec; [|intros [= _ <- _]; exact HI].
    apply Z.eqb_eq in Ec. subst code.
    destruct (lookup_404_table _ _ _ _ C L) as [_ Hm].
    destruct (create_fails gl (group.id g) user); intros [= _ <- _]; [exact HI|].
    unfold keys. rewrite fmap_app. apply NoDup_app. split; [exact HI|].
    split; [|repeat constructor; apply not_elem_of_nil].
    intros k Hk Hk'. apply list_elem_of_singleton in Hk'. subst k.
    apply has_member_keys in Hk. simpl in Hk. congruence.
  - intros [= _ <- _]. exact HI.
Qed.

Lemma preserves_group_body gl excl sb sn users g c :
  consistent gl ->
  preserves (fun tbl => NoDup (keys tbl)) (group_body gl excl sb sn users g c).
Proof.
  intros C. unfold group_body.
  apply preserves_bind; [apply preserves_indep, indep_emit|]. intros _.
  apply preserves_bind; [apply preserves_indep, indep_fails|]. intros _. cbv zeta.
  assert (Hskip : forall msg (c' : counters),
    preserves (fun tbl => NoDup (keys tbl)) (logging DEBUG msg >> ret c')).
  { intros msg c'. apply preserves_indep, indep_bind; [apply indep_emit|].
    intros _. apply indep_ret. }
  destruct (py_in (group.id g) excl); [apply Hskip|].
  destruct (truthy sn && is_not_none (group.parent_id g)); [apply Hskip|].
  apply preserves_bind; [apply preserves_indep, indep_blank_group|].
  intros [|]; [apply Hskip|].
  apply preserves_bind; [apply preserves_indep, indep_emit|]. intros _.
  apply preserves_bind; [|intros n; apply preserves_indep, indep_ret].
  apply preserves_for_each. intros user n. apply preserves_user_body, C.
Qed.

(** X12: against an instance that reports a membership as missing only
    when its table has no row for it, a run never creates a membership a
    second time: a table with at most one row for each group and user
    still has at most one after the run, however the run ends. *)
Theorem no_membership_twice
    (DEFAULT_URL : string) (int_of_str : string -> option Z)
    (environ : gmap string string) (gl : gitlab)
    (tbl : list membership) o tbl' tr :
  consistent gl ->
  NoDup (keys tbl) ->
  main DEFAULT_URL int_of_str environ gl tbl = (o, tbl', tr) ->
  NoDup (keys tbl').
Proof.
  intros C HI. revert tbl o tbl' tr HI.
  change (preserves (fun tbl => NoDup (keys tbl))
            (main DEFAULT_URL int_of_str environ gl)).
  unfold main.
  apply preserves_bind; [apply preserves_indep, indep_required|]. intros tok.
  apply preserves_bind; [apply preserves_indep, indep_login_gitlab|]. intros _.
  apply preserves_bind; [apply preserves_indep, indep_lift|]. intros users0.
  apply preserves_bind; [apply preserves_indep, indep_check_users|]. intros users.
  apply preserves_bind; [apply preserves_indep, indep_lift|]. intros exclude0.
  apply preserves_bind; [apply preserves_indep, indep_lift|]. intros v.
  destruct (negb (in_levels v)).
  { apply preserves_indep, indep_bind; [apply indep_emit|].
    intros _. apply indep_sys_exit. }
  apply preserves_bind; [apply preserves_indep, indep_emit|]. intros _.
  apply preserves_bind; [apply preserves_indep, indep_emit|]. intros _.
  apply preserves_bind; [apply preserves_indep, indep_fails|]. intros _.
  cbv zeta. apply preserves_bind.
  - apply preserves_for_each. intros g c. apply preserves_group_body, C.
  - intros c. apply preserves_indep.
    apply indep_bind; [apply indep_emit|]. intros _.
    apply indep_bind; [apply indep_emit|]. intros _. apply indep_ret.
Qed.

Lemma no_membership_twice_witness :
  NoDup (keys [ {| m_group := PyInt 1; m_user := "alice"; m_level := 30 |} ]).
Proof.
  apply (no_membership_twice "https://gitlab.com" decimal environ_maintainer
           gl_demo []
           (Return {| success_u := 1; success_g := 1; total_g := 1 |})
           [ {| m_group := PyInt 1; m_user := "alice"; m_level := 30 |} ]
           (main "https://gitlab.com" decimal environ_maintainer gl_demo []).2).
  - intros g user. discriminate.
  - constructor.
  - vm_compute. reflexivity.
Defined.

(** ** Runs that go through *)

Lemma returns_ret {A} (a : A) : returns (ret a).
Proof. intros tbl. exists a, tbl, []. reflexivity. Qed.

Lemma returns_emit e : returns (emit e).
Proof. intros tbl. exists tt, tbl, [e]. reflexivity. Qed.

Lemma returns_bind {A B} (m : M A) (k : A -> M B) :
  returns m -> (forall a, returns (k a)) -> returns (bind m k).
Proof.
  intros Hm Hk tbl. destruct (Hm tbl) as (a & t1 & r1 & E1).
  destruct (Hk a t1) as (b & t2 & r2 & E2).
  exists b, t2, (r1 ++ r2). rewrite (bind_Return _ _ _ _ _ _ E1), E2. reflexivity.
Qed.

(** When the first part is known to return [a], only the continuation at
    [a] has to return. *)
Lemma returns_bind_at {A B} (m : M A) (k : A -> M B) a :
  (forall tbl, exists tr, m tbl = (Return a, tbl, tr)) ->
  returns (k a) -> returns (bind m k).
Proof.
  intros Hm Hk tbl. destruct (Hm tbl) as (r1 & E1).
  destruct (Hk tbl) as (b & t2 & r2 & E2).
  exists b, t2, (r1 ++ r2). rewrite (bind_Return _ _ _ _ _ _ E1), E2. reflexivity.
Qed.

Lemma returns_for_each {A S} (body : A -> S -> M S) (l : list A) :
  (forall x s, returns (body x s)) -> forall s, returns (for_each l body s).
Proof.
  intros Hb. induction l as [|x l IH]; intros s; simpl.
  - apply returns_ret.
  - apply returns_bind; [apply Hb|exact IH].
Qed.

Lemma returns_user_body gl g user n :
  (forall g user, members_fault gl g user ≠ Some OtherException) ->
  (forall g user, create_fails gl g user = false) ->
  returns (user_body gl g user n).
Proof.
  intros Hfault Hcreate tbl. rewrite user_body_eq.
  destruct (member_lookup gl tbl (group.id g) user) as [[]|code|] eqn:L.
  - eexists _, _, _. reflexivity.
  - destruct (code =? 404); [|eexists _, _, _; reflexivity].
    rewrite Hcreate. eexists _, _, _. reflexivity.
  - exfalso. unfold member_lookup in L. specialize (Hfault (group.id g) user).
    destruct (members_fault gl (group.id g) user) as [a|]; [now subst a|].
    destruct (has_member tbl (group.id g) user); discriminate.
Qed.

Lemma returns_group_body gl excl sb sn users g c :
  (forall g, groups_get_fails gl g = false) ->
  (forall g, projects_list_fails gl g = false) ->
  (forall g user, members_fault gl g user ≠ Some OtherException) ->
  (forall g user, create_fails gl g user = false) ->
  returns (group_body gl excl sb sn users g c).
Proof.
  intros Hget Hproj Hfault Hcreate. unfold group_body.
  apply returns_bind; [apply returns_emit|]. intros _.
  rewrite Hget. apply returns_bind; [apply returns_ret|]. intros _. cbv zeta.
  assert (Hskip : forall msg (c' : counters), returns (logging DEBUG msg >> ret c')).
  { intros msg c'. apply returns_bind; [apply returns_emit|].
    intros _. apply returns_ret. }
  destruct (py_in (group.id g) excl); [apply Hskip|].
  destruct (truthy sn && is_not_none (group.parent_id g)); [apply Hskip|].
  apply returns_bind.
  { unfold blank_group. destruct (truthy sb); [|apply returns_ret].
    apply returns_bind; [apply returns_emit|intros _].
    rewrite Hproj. apply returns_bind; [|intros _]; apply returns_ret. }
  intros [|]; [apply Hskip|].
  apply returns_bind; [apply returns_emit|]. intros _.
  apply returns_bind; [|intros n; apply returns_ret].
  apply returns_for_each. intros user n. apply returns_user_body; assumption.
Qed.

Lemma walk_returns gl : forall l,
  Forall (fun u => known gl u || unknown gl u = true) l ->
  returned (walk gl l).1 = true.
Proof.
  induction l as [|x|x y l IHl IHyl] using list_ind2; intros Hall.
  - reflexivity.
  - destruct (known_or_unknown gl x) as [[n Hk]|[Hu|[Hk Hu]]].
    + rewrite (walk_found _ _ _ _ Hk). reflexivity.
    + rewrite (walk_unknown_last _ _ Hu). reflexivity.
    + apply Forall_cons in Hall as [Hx _]. rewrite Hk, Hu in Hx. discriminate.
  - apply Forall_cons in Hall as [Hx Hall1].
    pose proof Hall1 as Hall1'. apply Forall_cons in Hall1' as [_ Hall2].
    destruct (known_or_unknown gl x) as [[n Hk]|[Hu|[Hk Hu]]].
    + rewrite (walk_found _ _ _ _ Hk). cbn [fst snd].
      specialize (IHyl Hall1). destruct (walk gl (y :: l)).1; [reflexivity|discriminate..].
    + rewrite (walk_unknown_next _ _ _ _ Hu). cbn [fst snd].
      specialize (IHl Hall2). destruct (walk gl l).1; [reflexivity|discriminate..].
    + rewrite Hk, Hu in Hx. discriminate.
Qed.

Lemma returns_check_users gl users :
  (forall u, known gl u || unknown gl u = true) -> returns (check_users gl users).
Proof.
  intros Hall tbl. rewrite check_users_walk.
  assert (Hr : returned (walk gl users).1 = true).
  { apply walk_returns, Forall_forall. intros u _. apply Hall. }
  destruct (walk gl users).1 as [us| |]; [|discriminate..].
  exists us, tbl, (walk gl users).2. reflexivity.
Qed.

(** With the comma as separator and no default, the list accessor always
    returns. *)
Lemma env_list_returns environ key :
  exists l, env.list (env.init environ key None PyNone) "," = Return l.
Proof.
  unfold env.list. rewrite init_value_resolve. unfold resolve.
  destruct (environ !! key) as [s|]; simpl; [|eauto].
  destruct (String.eqb s EmptyString); simpl; eauto.
Qed.

Lemma in_levels_member z :
  z ∈ [0; 10; 20; 30; 40; 50] -> in_levels (PyInt z) = true.
Proof.
  intros H. repeat (apply elem_of_cons in H as [->|H]; [reflexivity|]).
  inversion H.
Qed.

(** X15: a run goes through to its summary and returns whenever the token
    is set, the login succeeds, GitLab answers every user lookup with the
    user or with 404, the access level resolves to one of the six levels,
    the listing of the groups, the fetch of a group and the listing of its
    projects do not raise, no membership lookup raises anything but a
    [GitlabGetError] and no creation fails.  In particular a membership
    lookup that answers with an error other than 404 does not stop the
    run. *)
Theorem run_completes
    (DEFAULT_URL : string) (int_of_str : string -> option Z)
    (environ : gmap string string) (gl : gitlab)
    (token : string) (z : Z) (tbl : list membership) :
  environ !! "GITLAB_PRIVATE_TOKEN" = Some token ->
  auth gl (gitlab_url DEFAULT_URL environ) (PyStr token) = AuthOk ->
  (forall u, known gl u || unknown gl u = true) ->
  access_level int_of_str environ = Return (PyInt z) ->
  z ∈ [0; 10; 20; 30; 40; 50] ->
  groups_list_fails gl = false ->
  (forall g, groups_get_fails gl g = false) ->
  (forall g, projects_list_fails gl g = false) ->
  (forall g user, members_fault gl g user ≠ Some OtherException) ->
  (forall g user, create_fails gl g user = false) ->
  exists c tbl' tr,
    main DEFAULT_URL int_of_str environ gl tbl = (Return c, tbl', tr).
Proof.
  intros Htok Hauth Husers Hlevel Hz Hlist Hget Hproj Hfault Hcreate.
  revert tbl. change (returns (main DEFAULT_URL int_of_str environ gl)).
  unfold main.
  apply (returns_bind_at _ _ (PyStr token)).
  { intros tbl. eexists. apply required_set, Htok. }
  apply (returns_bind_at _ _ tt).
  { intros tbl. unfold login_gitlab, bind, emit, logging. rewrite Hauth.
    eexists. reflexivity. }
  destruct (env_list_returns environ "GITLAB_FILLING_USERS") as [users0 Hfu].
  apply (returns_bind_at _ _ users0).
  { intros tbl. unfold filling_users. rewrite Hfu. eexists. reflexivity. }
  apply returns_bind; [apply returns_check_users, Husers|]. intros users.
  destruct (env_list_returns environ "GITLAB_EXCLUDE_GROUPS") as [excl0 Hex].
  apply (returns_bind_at _ _ excl0).
  { intros tbl. unfold exclude_groups. rewrite Hex. eexists. reflexivity. }
  apply (returns_bind_at _ _ (PyInt z)).
  { intros tbl. rewrite Hlevel. eexists. reflexivity. }
  rewrite (in_levels_member _ Hz). simpl negb. cbv iota.
  apply returns_bind; [apply returns_emit|]. intros _.
  apply returns_bind; [apply returns_emit|]. intros _.
  rewrite Hlist. apply returns_bind; [apply returns_ret|]. intros _.
  cbv zeta. apply returns_bind.
  - apply returns_for_each. intros g c. apply returns_group_body; assumption.
  - intros c. apply returns_bind; [apply returns_emit|]. intros _.
    apply returns_bind; [apply returns_emit|]. intros _. apply returns_ret.
Qed.

Lemma run_completes_witness :
  exists c tbl' tr,
    main "https://gitlab.com" decimal environ_maintainer
      {| auth := fun _ _ => AuthOk;
         users_get := fun u => Found u;
         groups_list := [ group.mk (PyInt 1) "org/team" PyNone ["site"] ];
         members_fault := fun _ _ => Some (GetError 403);
         create_fails := fun _ _ => false;
         groups_list_fails := false;
         groups_get_fails := fun _ => false;
         projects_list_fails := fun _ => false |} []
    = (Return c, tbl', tr).
Proof.
  apply (run_completes "https://gitlab.com" decimal environ_maintainer
           {| auth := fun _ _ => AuthOk;
              users_get := fun u => Found u;
              groups_list := [ group.mk (PyInt 1) "org/team" PyNone ["site"] ];
              members_fault := fun _ _ => Some (GetError 403);
              create_fails := fun _ _ => false;
              groups_list_fails := false;
              groups_get_fails := fun _ => false;
              projects_list_fails := fun _ => false |} "glpat" 40 []).
  - vm_compute. reflexivity.
  - reflexivity.
  - intros u. reflexivity.
  - vm_compute. reflexivity.
  - rewrite !elem_of_cons. tauto.
  - reflexivity.
  - intros g. reflexivity.
  - intros g. reflexivity.
  - intros g user. discriminate.
  - intros g user. reflexivity.
Defined.

(** ** Defaults *)

(** X16: a setting of the run that is not in the environment, or is there
    with an empty value, takes its default: blank groups and nested groups
    are skipped, and the access level is 30, which passes the check of the
    level. *)
Theorem unset_settings_take_defaults
    (int_of_str : string -> option Z) (environ : gmap string string) :
  (environ !! "SKIP_BLANK_GROUPS" = None
   \/ environ !! "SKIP_BLANK_GROUPS" = Some EmptyString ->
   skip_blank environ = PyBool true)
  /\ (environ !! "SKIP_NESTED_GROUPS" = None
      \/ environ !! "SKIP_NESTED_GROUPS" = Some EmptyString ->
      skip_nested environ = PyBool true)
  /\ (environ !! "GITLAB_USERS_ACCESS_LEVEL" = None
      \/ environ !! "GITLAB_USERS_ACCESS_LEVEL" = Some EmptyString ->
      access_level int_of_str environ = Return (PyInt 30)
      /\ in_levels (PyInt 30) = true).
Proof.
  split; [|split].
  - unfold skip_blank, env.boolean. intros [H|H].
    + now rewrite (init_value_unset environ _ None _ H eq_refl).
    + now rewrite (init_value_primary _ _ _ _ _ H).
  - unfold skip_nested, env.boolean. intros [H|H].
    + now rewrite (init_value_unset environ _ None _ H eq_refl).
    + now rewrite (init_value_primary _ _ _ _ _ H).
  - unfold access_level, env.int. intros [H|H]; (split; [|reflexivity]).
    + now rewrite (init_value_unset environ _ None _ H eq_refl).
    + now rewrite (init_value_primary _ _ _ _ _ H).
Qed.

Lemma unset_settings_take_defaults_witness :
  skip_blank {[ "SKIP_BLANK_GROUPS" := EmptyString ]} = PyBool true
  /\ skip_nested ∅ = PyBool true
  /\ access_level decimal ∅ = Return (PyInt 30).
Proof.
  split; [|split].
  - apply (unset_settings_take_defaults decimal
             {[ "SKIP_BLANK_GROUPS" := EmptyString ]}).
    right. vm_compute. reflexivity.
  - apply (unset_settings_take_defaults decimal ∅). left. vm_compute. reflexivity.
  - apply (unset_settings_take_defaults decimal ∅). left. vm_compute. reflexivity.
Defined.

(** ** Groups fetched *)

Lemma fetched_app tr1 tr2 : fetched (tr1 ++ tr2) = fetched tr1 ++ fetched tr2.
Proof. apply omap_app. Qed.

Lemma fetched_quiet tr :
  Forall (fun e => group_event e = false) tr -> fetched tr = [].
Proof.
  induction 1 as [|e tr He _ IH]; [reflexivity|].
  change (e :: tr) with ([e] ++ tr). rewrite fetched_app, IH.
  destruct e as [[]|]; try discriminate; reflexivity.
Qed.

Lemma user_loop_fetched gl g : forall users n tbl o tbl' tr,
  for_each users (user_body gl g) n tbl = (o, tbl', tr) -> fetched tr = [].
Proof.
  induction users as [|user users IH]; intros n tbl o tbl' tr; simpl.
  - intros [= _ _ <-]. reflexivity.
  - intros H.
    assert (Hhead : forall o1 t1 r1,
              user_body gl g user n tbl = (o1, t1, r1) -> fetched r1 = []).
    { intros o1 t1 r1. rewrite user_body_eq.
      destruct (member_lookup gl tbl (group.id g) user) as [[]|code|];
        [| destruct (code =? 404);
           [destruct (create_fails gl (group.id g) user)|] |];
        intros [= _ _ <-]; reflexivity. }
    bind_cases H.
    + rewrite fetched_app, (Hhead _ _ _ E1), (IH _ _ _ _ _ E2). reflexivity.
    + exact (Hhead _ _ _ E1).
    + exact (Hhead _ _ _ E1).
Qed.

Lemma group_body_fetched gl excl sb sn users g c tbl o tbl' tr :
  group_body gl excl sb sn users g c tbl = (o, tbl', tr) ->
  fetched tr = [group.id g].
Proof.
  destruct (group_call_fails gl excl sb sn g) eqn:Hf.
  { destruct (group_body_fails _ _ _ _ users _ c tbl Hf) as (tr0 & -> & Hfe).
    intros [= _ _ <-]. exact Hfe. }
  destruct (matching excl sb sn g) eqn:Hm.
  - rewrite (group_body_matching _ _ _ _ _ _ _ _ Hf Hm).
    destruct (for_each users (user_body gl g) (success_u c) tbl)
      as [[o1 t] r] eqn:E. simpl. intros [= _ _ <-].
    apply user_loop_fetched in E.
    change (Call (GroupsGet (group.id g))
              :: after_filters sb g
              ++ Log INFO (WorkWithGroup (group.full_path g)) :: r)
      with ([Call (GroupsGet (group.id g))]
              ++ after_filters sb g
              ++ [Log INFO (WorkWithGroup (group.full_path g))] ++ r).
    rewrite !fetched_app, E. unfold after_filters.
    destruct (truthy sb); reflexivity.
  - destruct (group_body_skipped gl _ _ _ users _ c tbl Hf Hm)
      as (tr0 & -> & _ & Hfe).
    intros [= _ _ <-]. exact Hfe.
Qed.

Lemma group_loop_fetched gl excl sb sn users : forall groups c tbl c' tbl' tr,
  for_each groups (group_body gl excl sb sn users) c tbl = (Return c', tbl', tr) ->
  fetched tr = map group.id groups.
Proof.
  induction groups as [|g groups IH]; intros c tbl c' tbl' tr; simpl.
  - intros [= _ _ <-]. reflexivity.
  - intros H. apply bind_inv_Return in H as (c1 & t1 & r1 & r2 & E1 & E2 & ->).
    rewrite fetched_app, (group_body_fetched _ _ _ _ _ _ _ _ _ _ _ E1),
      (IH _ _ _ _ _ E2).
    reflexivity.
Qed.

(** X17: a run that returns has fetched the record of every group GitLab
    listed exactly once and in the order of the listing, the groups it then
    skips included. *)
Theorem every_group_is_fetched_once
    (DEFAULT_URL : string) (int_of_str : string -> option Z)
    (environ : gmap string string) (gl : gitlab)
    (tbl : list membership) c tbl' tr :
  main DEFAULT_URL int_of_str environ gl tbl = (Return c, tbl', tr) ->
  fetched tr = map group.id (groups_list gl).
Proof.
  intros H.
  apply main_inv in H
    as [(Hr & _)|[(tr0 & _ & Hr & _)
                 |(users0 & users & excl1 & tr_u & tr0 & o1 & tr1
                   & _ & _ & _ & F0 & Hloop & Htr)]]; [discriminate Hr..|].
  destruct Htr as [(c1 & -> & _ & ->)|(_ & Hr & _)]; [|discriminate Hr].
  apply group_loop_fetched in Hloop.
  change (Call GroupsList :: tr1 ++ ?l) with ([Call GroupsList] ++ tr1 ++ l).
  rewrite !fetched_app, (fetched_quiet _ F0), Hloop.
  simpl. now rewrite app_nil_r.
Qed.

Lemma every_group_is_fetched_once_witness :
  fetched (main "https://gitlab.com" decimal environ_exclude gl_two_groups []).2
  = map group.id (groups_list gl_two_groups).
Proof.
  apply (every_group_is_fetched_once "https://gitlab.com" decimal environ_exclude
           gl_two_groups []
           {| success_u := 1; success_g := 1; total_g := 2 |}
           (main "https://gitlab.com" decimal environ_exclude gl_two_groups []).1.2).
  vm_compute. reflexivity.
Defined.
